(** * Coded-target sheets: the SVG canvas and the four sheet composers

    A shallow embedding of [create_target_sheets.py].

    Number model.  Python integers that steer control flow ([code],
    [code_num], [code_index], [rows], [cols], loop counters, [BITS]) are [Z].
    Page coordinates, radii and angles are Python/numpy floats in the
    source; they are idealised as real numbers ([R]), with [np.cos],
    [np.sin] and [np.deg2rad] read as the real cosine, sine and
    degree-to-radian conversion.  Rounding is therefore not modelled.

    Canvas model.  The private string [__svg] is a sequence of formatted
    fragments; each fragment appended by one [+=] is one [elem] carrying the
    arguments of its [format] call, in the order of appending. *)

From Stdlib Require Import ZArith List String Bool Lia Reals Lra.
From Stdlib Require Import DecimalString Permutation.
Import ListNotations.

Local Open Scope Z_scope.

(** ** Exceptions and results *)

Inductive exn : Type :=
| IndexError
| ZeroDivisionError.

Inductive result (A : Type) : Type :=
| Ok (a : A)
| Raise (e : exn).

Arguments Ok {A} a.
Arguments Raise {A} e.

Definition bind {A B : Type} (m : result A) (k : A -> result B) : result B :=
  match m with
  | Ok a => k a
  | Raise e => Raise e
  end.

Notation "x <- m ;; k" := (bind m (fun x => k))
  (at level 61, m at next level, right associativity).

(** [for x in xs: body], where the body may raise. *)
Fixpoint for_each {A S : Type} (xs : list A) (body : A -> S -> result S)
  (s : S) : result S :=
  match xs with
  | [] => Ok s
  | x :: xs' => s' <- body x s ;; for_each xs' body s'
  end.

(** [range(n)] for an integer [n]: empty when [n <= 0]. *)
Definition range (n : Z) : list Z :=
  map Z.of_nat (seq 0 (Z.to_nat n)).

(** [l[i]] on a Python list: negative indices count from the end, anything
    outside [-len, len) raises [IndexError]. *)
Definition getitem {A : Type} (l : list A) (i : Z) : result A :=
  let n := Z.of_nat (List.length l) in
  let k := if i <? 0 then i + n else i in
  if (k <? 0) || (n <=? k) then Raise IndexError
  else match nth_error l (Z.to_nat k) with
       | Some a => Ok a
       | None => Raise IndexError
       end.

(** [a / b] with an integer divisor (true division). *)
Definition py_div (a : R) (b : Z) : result R :=
  if b =? 0 then Raise ZeroDivisionError else Ok (a / IZR b)%R.

(** ** The canvas *)

Definition BITS : Z := 14.

(** One fragment of the SVG text. *)
Inductive elem : Type :=
| SvgOpen (w h : R) (u : string)
| Rect (x y w h : R) (fill : string)
| Circle (fill : string) (cx cy r : R)
| GroupOpen (stroke : string) (stroke_width : R)
| Path (mx my rx ry dx dy : R) (first : bool)
| GroupClose
| Text (x y font_size : R) (fill : string) (label : Z).

(** The arguments of one [add_target] call. *)
Record placement : Type := mkPlacement {
  pl_x : R;
  pl_y : R;
  pl_radius : R;
  pl_code : Z;
  pl_code_num : Z;
  pl_first_segment : bool;
  pl_color : string
}.

(** The object state of [SvgPage].  [placements] is a ghost field: it
    records the arguments of every [add_target] call in call order and is
    not part of the SVG text. *)
Record SvgPage : Type := mkSvgPage {
  width : R;
  height : R;
  unit_ : string;
  margin : R;
  background_margin : R;
  background_color : string;
  svg : list elem;
  placements : list placement
}.

Definition append_svg (p : SvgPage) (es : list elem) : SvgPage :=
  mkSvgPage (width p) (height p) (unit_ p) (margin p) (background_margin p)
    (background_color p) (svg p ++ es) (placements p).

Definition record_placement (p : SvgPage) (pl : placement) : SvgPage :=
  mkSvgPage (width p) (height p) (unit_ p) (margin p) (background_margin p)
    (background_color p) (svg p) (placements p ++ [pl]).

(** [SvgPage.__init__] *)
Definition SvgPage_init (w h : R) (u : string) (m bm : R) (bc : string)
  : SvgPage :=
  mkSvgPage w h u m bm bc
    [ SvgOpen w h u;
      Rect bm bm (w - bm * 2)%R (h - bm * 2)%R bc ]
    [].

Definition default_width : R := 210%R.
Definition default_height : R := 298%R.
Definition default_unit : string := "mm".
Definition default_margin : R := 5%R.
Definition default_background_margin : R := 5%R.
Definition default_background_color : string := "#fff".
Definition default_color : string := "#000000".

Definition get_width (p : SvgPage) : R := width p.
Definition get_height (p : SvgPage) : R := height p.
Definition get_margin (p : SvgPage) : R := margin p.

(** [SvgPage.add_circle] *)
Definition add_circle (p : SvgPage) (x y radius : R) (color : string)
  : SvgPage :=
  append_svg p [Circle color x y radius].

(** [np.deg2rad] *)
Definition deg2rad (d : R) : R := (d * (PI / 180))%R.

(** The angle, in degrees, at which sector [i] starts: [360 / BITS * i]. *)
Definition sector_deg (i : Z) : R := (360 / IZR BITS * IZR i)%R.

(** The path fragment of lines 65-79 for loop index [i]. *)
Definition arc_segment (x y radius : R) (i : Z) (first_segment : bool)
  : elem :=
  let x_start := (cos (deg2rad (sector_deg i)) * radius * (5 / 2))%R in
  let y_start := (sin (deg2rad (sector_deg i)) * radius * (5 / 2))%R in
  let x_end :=
    (cos (deg2rad (sector_deg (i + 1))) * radius * (5 / 2) - x_start)%R in
  let y_end :=
    (sin (deg2rad (sector_deg (i + 1))) * radius * (5 / 2) - y_start)%R in
  let x_start := (x_start + x)%R in
  let y_start := (y_start + y)%R in
  Path x_start y_start (radius * (5 / 2))%R (radius * (5 / 2))%R x_end y_end
    first_segment.

(** The test [(1 << (BITS - 1 - i)) & code] of line 64. *)
Definition bit_set (code i : Z) : bool :=
  negb (Z.land (Z.shiftl 1 (BITS - 1 - i)) code =? 0).

(** The loop of lines 63-80.  Its state is the page (whose text grows) and
    the local variable [first_segment]. *)
Definition target_loop_body (x y radius : R) (code : Z) (i : Z)
  (st : SvgPage * bool) : SvgPage * bool :=
  let '(p, first_segment) := st in
  if bit_set code i
  then (append_svg p [arc_segment x y radius i first_segment], false)
  else (p, first_segment).

Definition target_loop (p : SvgPage) (x y radius : R) (code : Z)
  (first_segment : bool) : SvgPage * bool :=
  fold_left (fun st i => target_loop_body x y radius code i st)
    (range BITS) (p, first_segment).

(** [SvgPage.add_target] *)
Definition add_target (p : SvgPage) (x y radius : R) (code code_num : Z)
  (first_segment : bool) (color : string) : SvgPage :=
  let p := record_placement p
             (mkPlacement x y radius code code_num first_segment color) in
  let p := add_circle p x y radius color in
  let p := append_svg p [GroupOpen color radius] in
  let p := fst (target_loop p x y radius code first_segment) in
  let p := append_svg p [GroupClose] in
  append_svg p
    [Text (x - radius * 3)%R (y + radius * 3)%R (radius / 2)%R color
       (code_num + 1)].

(** ** The sheet composers

    [CODES] is the module-level list [find_codes.generate_codes(BITS)]; the
    generator is not part of this file and the list is a parameter.  Every
    composer ends with [svg_page.savePDF(filename, path)], which writes the
    text and runs the external exporter; the composers below return the page
    that is handed to [savePDF], or the exception raised before that. *)

Section Sheets.

Variable CODES : list Z.

Definition len_CODES : Z := Z.of_nat (List.length CODES).

(** [create_sheet_grid] *)
Definition create_sheet_grid (diameter : R) (code_index rows cols : Z)
  : result SvgPage :=
  let svg_page :=
    SvgPage_init default_width default_height default_unit 10%R
      default_background_margin default_background_color in
  let width := get_width svg_page in
  let height := get_height svg_page in
  let margin := get_margin svg_page in
  let target_size := (diameter * 3)%R in
  x_spacing <- py_div (width - margin * 2 - target_size)%R (cols - 1) ;;
  y_spacing <- py_div (height - margin * 2 - target_size)%R (rows - 1) ;;
  for_each (range rows) (fun i svg_page =>
    for_each (range cols) (fun j svg_page =>
      let num := code_index + i * cols + j in
      if num <? len_CODES
      then code <- getitem CODES num ;;
           Ok (add_target svg_page
                 (margin + target_size / 2 + IZR j * x_spacing)%R
                 (margin + target_size / 2 + IZR i * y_spacing)%R
                 (diameter / 2)%R code num true default_color)
      else Ok svg_page) svg_page) svg_page.

(** [create_sheet_a] *)
Definition create_sheet_a (diameter : R) (code_index : Z) : result SvgPage :=
  let svg_page :=
    SvgPage_init default_width default_height default_unit default_margin
      default_background_margin default_background_color in
  let width := get_width svg_page in
  let height := get_height svg_page in
  let margin := get_margin svg_page in
  let target_size := (diameter * 3)%R in
  let x_spacing := (width - margin * 2 - target_size)%R in
  let y_spacing := ((height - margin * 2 - target_size) / 3)%R in
  code0 <- getitem CODES code_index ;;
  let svg_page :=
    add_target svg_page (width / 4)%R (height / 4)%R (diameter / 2)%R
      code0 code_index true default_color in
  code1 <- getitem CODES (code_index + 1) ;;
  let svg_page :=
    add_target svg_page (width / 4 * 3)%R (height / 4 * 3)%R (diameter / 2)%R
      code1 (code_index + 1) false default_color in
  let svg_page :=
    add_circle svg_page (margin + target_size / 2 + 1 * x_spacing)%R
      (margin + target_size / 2 + 0 * y_spacing)%R (diameter / 2)%R
      default_color in
  let svg_page :=
    add_circle svg_page (margin + target_size / 2 + 1 * x_spacing)%R
      (margin + target_size / 2 + 1 * y_spacing)%R (diameter / 2)%R
      default_color in
  let svg_page :=
    add_circle svg_page (margin + target_size / 2 + 0 * x_spacing)%R
      (margin + target_size / 2 + 2 * y_spacing)%R (diameter / 2)%R
      default_color in
  let svg_page :=
    add_circle svg_page (margin + target_size / 2 + 0 * x_spacing)%R
      (margin + target_size / 2 + 3 * y_spacing)%R (diameter / 2)%R
      default_color in
  Ok svg_page.

(** The slot chosen by lines 178-186 of [create_sheet_b]:
    [(col, row, coded_x, coded_y)]. *)
Definition sheet_b_slot (width height : R) (code_index : Z)
  : Z * Z * R * R :=
  let col := 1 in
  let row := 2 in
  let coded_x := (width / 4)%R in
  let coded_y := (height / 4)%R in
  if code_index mod 2 =? 0
  then (0, 0, (coded_x * 3)%R, (coded_y * 3)%R)
  else (col, row, coded_x, coded_y).

(** [create_sheet_b] *)
Definition create_sheet_b (diameter : R) (code_index : Z) : result SvgPage :=
  let svg_page :=
    SvgPage_init default_width default_height default_unit default_margin
      default_background_margin default_background_color in
  let width := get_width svg_page in
  let height := get_height svg_page in
  let margin := get_margin svg_page in
  let target_size := (diameter * 3)%R in
  let x_spacing := (width - margin * 2 - target_size)%R in
  let y_spacing := ((height - margin * 2 - target_size) / 3)%R in
  let '(col, row, coded_x, coded_y) := sheet_b_slot width height code_index in
  code <- getitem CODES code_index ;;
  let svg_page :=
    add_target svg_page coded_x coded_y (diameter / 2)%R code code_index true
      default_color in
  let svg_page :=
    add_circle svg_page (margin + target_size / 2 + IZR col * x_spacing)%R
      (margin + target_size / 2 + IZR row * y_spacing)%R (diameter / 2)%R
      default_color in
  let svg_page :=
    add_circle svg_page (margin + target_size / 2 + IZR col * x_spacing)%R
      (margin + target_size / 2 + IZR (row + 1) * y_spacing)%R
      (diameter / 2)%R default_color in
  let svg_page :=
    add_circle svg_page (margin + target_size / 2 + 1 * x_spacing)%R
      (margin + target_size / 2 + 0 * y_spacing)%R (diameter / 2)%R
      default_color in
  let svg_page :=
    add_circle svg_page (margin + target_size / 2 + 1 * x_spacing)%R
      (margin + target_size / 2 + 1 * y_spacing)%R (diameter / 2)%R
      default_color in
  let svg_page :=
    add_circle svg_page (margin + target_size / 2 + 0 * x_spacing)%R
      (margin + target_size / 2 + 2 * y_spacing)%R (diameter / 2)%R
      default_color in
  let svg_page :=
    add_circle svg_page (margin + target_size / 2 + 0 * x_spacing)%R
      (margin + target_size / 2 + 3 * y_spacing)%R (diameter / 2)%R
      default_color in
  Ok svg_page.

(** [create_sheet_c] *)
Definition create_sheet_c (diameter : R) (code_index : Z) : result SvgPage :=
  let svg_page :=
    SvgPage_init default_width default_height default_unit default_margin
      default_background_margin default_background_color in
  let width := get_width svg_page in
  let height := get_height svg_page in
  let margin := get_margin svg_page in
  let target_size := (diameter * 3)%R in
  let x_spacing := (width - margin * 2 - target_size)%R in
  let y_spacing := ((height - margin * 2 - target_size) / 2)%R in
  code <- getitem CODES code_index ;;
  let svg_page :=
    add_target svg_page (width / 2)%R (height / 2)%R (diameter / 2)%R
      code code_index true default_color in
  let svg_page :=
    add_circle svg_page (margin + target_size / 2 + 0 * x_spacing)%R
      (margin + target_size / 2 + 0 * y_spacing)%R (diameter / 2)%R
      default_color in
  let svg_page :=
    add_circle svg_page (margin + target_size / 2 + 1 * x_spacing)%R
      (margin + target_size / 2 + 0 * y_spacing)%R (diameter / 2)%R
      default_color in
  let svg_page :=
    add_circle svg_page (margin + target_size / 2 + 0 * x_spacing)%R
      (margin + target_size / 2 + 2 * y_spacing)%R (diameter / 2)%R
      default_color in
  let svg_page :=
    add_circle svg_page (margin + target_size / 2 + 1 * x_spacing)%R
      (margin + target_size / 2 + 2 * y_spacing)%R (diameter / 2)%R
      default_color in
  Ok svg_page.

End Sheets.

(** ** Observations on a canvas *)

Definition is_path (e : elem) : bool :=
  match e with Path _ _ _ _ _ _ _ => true | _ => false end.

(** A path fragment formatted with [id="first"]. *)
Definition is_anchor (e : elem) : bool :=
  match e with Path _ _ _ _ _ _ first => first | _ => false end.

Definition arc_segments (es : list elem) : list elem := filter is_path es.
Definition anchors (es : list elem) : list elem := filter is_anchor es.

(** The numbers printed by the text fragments, in order. *)
Fixpoint labels (es : list elem) : list Z :=
  match es with
  | [] => []
  | Text _ _ _ _ n :: es' => n :: labels es'
  | _ :: es' => labels es'
  end.

(** The circles that are not the centre dot of a target: a centre dot is
    always directly followed by the opening of the target's group. *)
Fixpoint reference_dots (es : list elem) : list elem :=
  match es with
  | [] => []
  | Circle c x y r :: es' =>
      match es' with
      | GroupOpen _ _ :: _ => reference_dots es'
      | _ => Circle c x y r :: reference_dots es'
      end
  | _ :: es' => reference_dots es'
  end.

(** The loop indices at which the loop of [add_target] emits a segment. *)
Definition drawn_sectors (code : Z) : list Z :=
  filter (bit_set code) (range BITS).

(** The segments emitted for a list of loop indices; only the first one can
    carry the anchor. *)
Fixpoint segments (x y radius : R) (first_segment : bool) (sectors : list Z)
  : list elem :=
  match sectors with
  | [] => []
  | i :: sectors' =>
      arc_segment x y radius i first_segment
        :: segments x y radius false sectors'
  end.

(** Everything one [add_target] call appends to the text. *)
Definition target_elems (pl : placement) : list elem :=
  [ Circle (pl_color pl) (pl_x pl) (pl_y pl) (pl_radius pl);
    GroupOpen (pl_color pl) (pl_radius pl) ]
  ++ segments (pl_x pl) (pl_y pl) (pl_radius pl) (pl_first_segment pl)
       (drawn_sectors (pl_code pl))
  ++ [ GroupClose;
       Text (pl_x pl - pl_radius pl * 3)%R (pl_y pl + pl_radius pl * 3)%R
         (pl_radius pl / 2)%R (pl_color pl) (pl_code_num pl + 1) ].

(** Number of one bits of a non-negative integer. *)
Fixpoint pos_popcount (p : positive) : nat :=
  match p with
  | xH => 1
  | xO q => pos_popcount q
  | xI q => S (pos_popcount q)
  end.

Definition popcount (c : Z) : nat :=
  match c with
  | Zpos p => pos_popcount p
  | _ => 0
  end.

(** Decoding: the sum of [2^(13-i)] over the sectors present. *)
Definition decode_sectors (sectors : list Z) : Z :=
  fold_right (fun i acc => 2 ^ (13 - i) + acc) 0 sectors.

(** A point at angle [deg] degrees on the ring of radius [rho] around
    [(x, y)]. *)
Definition polar (x y rho deg : R) : R * R :=
  ((x + rho * cos (deg * PI / 180))%R, (y + rho * sin (deg * PI / 180))%R).

(** [e] is a relative arc with both radii [5/2 * radius] that starts on the
    ring of that radius around [(x, y)] at [360*i/14] degrees and ends on it
    at [360*(i+1)/14] degrees. *)
Definition spans_sector (x y radius : R) (i : Z) (e : elem) : Prop :=
  match e with
  | Path mx my rx ry dx dy _ =>
      let rho := (5 / 2 * radius)%R in
      (mx, my) = polar x y rho (360 * IZR i / 14)%R /\
      ((mx + dx)%R, (my + dy)%R) = polar x y rho (360 * (IZR i + 1) / 14)%R /\
      rx = rho /\ ry = rho
  | _ => False
  end.

(** ** Describing what a composer produced *)

(** The canvases that can arise: a fresh page, extended by any sequence of
    [add_circle] and [add_target] calls. *)
Inductive reachable : SvgPage -> Prop :=
| reachable_init w h u m bm bc :
    reachable (SvgPage_init w h u m bm bc)
| reachable_circle p x y radius color :
    reachable p -> reachable (add_circle p x y radius color)
| reachable_target p x y radius code code_num first_segment color :
    reachable p ->
    reachable (add_target p x y radius code code_num first_segment color).

(** [add_target] called with the arguments collected in [pl]. *)
Definition place (p : SvgPage) (pl : placement) : SvgPage :=
  add_target p (pl_x pl) (pl_y pl) (pl_radius pl) (pl_code pl)
    (pl_code_num pl) (pl_first_segment pl) (pl_color pl).

Definition place_all (p : SvgPage) (pls : list placement) : SvgPage :=
  fold_left place pls p.

Definition olist {A : Type} (o : option A) : list A :=
  match o with Some a => [a] | None => [] end.

(** The anchor a placement contributes: its first segment, when it was
    called with [first_segment = True] and draws a segment at all. *)
Definition placement_anchor (pl : placement) : list elem :=
  if pl_first_segment pl
  then match drawn_sectors (pl_code pl) with
       | i :: _ => [arc_segment (pl_x pl) (pl_y pl) (pl_radius pl) i true]
       | [] => []
       end
  else [].

(** A reference dot of sheets a, b and c (page 210 x 298, margin 5): column
    factor [kx], row factor [ky], and the divisor [div] of [y_spacing]. *)
Definition corner_dot (diameter kx ky div : R) : elem :=
  Circle default_color
    (5 + diameter * 3 / 2 + kx * (210 - 5 * 2 - diameter * 3))%R
    (5 + diameter * 3 / 2 + ky * ((298 - 5 * 2 - diameter * 3) / div))%R
    (diameter / 2)%R.

(** The header and the background rectangle of a default page. *)
Definition default_header : list elem :=
  [ SvgOpen 210 298 "mm"; Rect 5 5 (210 - 5 * 2)%R (298 - 5 * 2)%R "#fff" ].

Section GridCells.

Variable CODES : list Z.
Variables (diameter : R) (code_index rows cols : Z).

(** Centre of column [j] and of row [i] of the grid (lines 112-114 and
    121-122, with the page of [create_sheet_grid]: 210 x 298, margin 10). *)
Definition grid_x (j : Z) : R :=
  (10 + diameter * 3 / 2
   + IZR j * ((210 - 10 * 2 - diameter * 3) / IZR (cols - 1)))%R.

Definition grid_y (i : Z) : R :=
  (10 + diameter * 3 / 2
   + IZR i * ((298 - 10 * 2 - diameter * 3) / IZR (rows - 1)))%R.

(** What cell [(i, j)] receives: the code at index
    [code_index + i * cols + j] when the list has one there, else nothing. *)
Definition grid_cell (i j : Z) : option placement :=
  let num := code_index + i * cols + j in
  if num <? len_CODES CODES
  then match nth_error CODES (Z.to_nat num) with
       | Some code =>
           Some (mkPlacement (grid_x j) (grid_y i) (diameter / 2)%R code num
                   true default_color)
       | None => None
       end
  else None.

(** The cells in row-major order, empty cells dropped. *)
Definition grid_cells : list placement :=
  flat_map (fun i => flat_map (fun j => olist (grid_cell i j)) (range cols))
    (range rows).

(** The page of [create_sheet_grid] (margin 10) with the non-empty cells
    placed in row-major order. *)
Definition grid_page : SvgPage :=
  place_all
    (SvgPage_init default_width default_height default_unit 10%R
       default_background_margin default_background_color)
    grid_cells.

End GridCells.

(** ** Vocabulary of the page-level statements *)

(** A page with exactly one placement called with [first_segment = True],
    the first one; the only anchor such a page can carry is the first
    segment of that placement, present exactly when the low 14 bits of its
    code are not all zero. *)
Definition single_anchor_page (p : SvgPage) : Prop :=
  exists pl rest,
    placements p = pl :: rest /\
    pl_first_segment pl = true /\
    Forall (fun q => pl_first_segment q = false) rest /\
    anchors (svg p) = placement_anchor pl /\
    (List.length (anchors (svg p)) <= 1)%nat /\
    (pl_code pl mod 2 ^ 14 <> 0 -> List.length (anchors (svg p)) = 1%nat) /\
    (pl_code pl mod 2 ^ 14 = 0 -> anchors (svg p) = []).

(** Halves of the page in the coordinates of the SVG text: the view box is
    [0 0 width height], x grows to the right and y grows downwards from the
    top edge. *)
Definition in_left_half (p : SvgPage) (pl : placement) : Prop :=
  (pl_x pl < width p / 2)%R.
Definition in_right_half (p : SvgPage) (pl : placement) : Prop :=
  (width p / 2 < pl_x pl)%R.
Definition in_upper_half (p : SvgPage) (pl : placement) : Prop :=
  (pl_y pl < height p / 2)%R.
Definition in_lower_half (p : SvgPage) (pl : placement) : Prop :=
  (height p / 2 < pl_y pl)%R.

(** Twenty sample codes, used where a concrete [CODES] list is needed. *)
Definition sample_codes : list Z :=
  [ 1; 3; 5; 7; 9; 11; 13; 15; 17; 19; 21; 23; 25; 27; 29; 31; 33; 35; 37; 39 ].

(** The [t]-th target of a grid page, counted from 0 in row-major order:
    column [t mod cols], row [t / cols], printed index [code_index + t]. *)
Definition grid_target (diameter : R) (code_index rows cols : Z) (t : nat)
  (code : Z) : placement :=
  mkPlacement (grid_x diameter cols (Z.of_nat t mod cols))
    (grid_y diameter rows (Z.of_nat t / cols)) (diameter / 2)%R code
    (code_index + Z.of_nat t) true default_color.

(** ** Geometry of a path fragment *)

(** Start point and end point of a relative arc. *)
Definition arc_start (e : elem) : R * R :=
  match e with
  | Path mx my _ _ _ _ _ => (mx, my)
  | _ => (0, 0)%R
  end.

Definition arc_end (e : elem) : R * R :=
  match e with
  | Path mx my _ _ dx dy _ => ((mx + dx)%R, (my + dy)%R)
  | _ => (0, 0)%R
  end.

(** Squared distance of two points. *)
Definition dist2 (a b : R * R) : R :=
  ((fst a - fst b) * (fst a - fst b) + (snd a - snd b) * (snd a - snd b))%R.

(** ** Structure of the canvas text *)

(** Where a reader of the fragment sequence stands: between items, right
    after a circle, inside a group, or after a closed group that still
    lacks its text. *)
Inductive pstate : Type :=
| Top
| AfterCircle
| InGroup
| AfterGroup.

Definition pstep (s : pstate) (e : elem) : option pstate :=
  match s, e with
  | (Top | AfterCircle), Circle _ _ _ _ => Some AfterCircle
  | AfterCircle, GroupOpen _ _ => Some InGroup
  | InGroup, Path _ _ _ _ _ _ _ => Some InGroup
  | InGroup, GroupClose => Some AfterGroup
  | AfterGroup, Text _ _ _ _ _ => Some Top
  | _, _ => None
  end.

Fixpoint prun (s : pstate) (es : list elem) : option pstate :=
  match es with
  | [] => Some s
  | e :: es' =>
      match pstep s e with
      | Some s' => prun s' es'
      | None => None
      end
  end.

(** The body of a canvas is a sequence of items, each a lone circle or a
    target block: circle, group opening, paths, group closing, text. *)
Definition well_formed_body (es : list elem) : bool :=
  match prun Top es with
  | Some Top | Some AfterCircle => true
  | _ => false
  end.

(** A canvas opens with its header and its background rectangle, computed
    from the page's own measures, and goes on with a well-formed body. *)
Definition well_formed_page (p : SvgPage) : Prop :=
  exists body,
    svg p
    = SvgOpen (width p) (height p) (unit_ p)
      :: Rect (background_margin p) (background_margin p)
           (width p - background_margin p * 2)%R
           (height p - background_margin p * 2)%R (background_color p)
      :: body /\
    well_formed_body body = true.

(** Centre of a circle fragment. *)
Definition circle_centre (e : elem) : R * R :=
  match e with
  | Circle _ cx cy _ => (cx, cy)
  | _ => (0, 0)%R
  end.

Definition placement_centre (pl : placement) : R * R := (pl_x pl, pl_y pl).

(** Half-turn of the default page (210 x 298) about its centre. *)
Definition half_turn (pt : R * R) : R * R :=
  ((210 - fst pt)%R, (298 - snd pt)%R).

(** The square of half-width [half] around [pt] lies inside the margins of
    the default page (210 x 298, margin 5). *)
Definition inside_margins (half : R) (pt : R * R) : Prop :=
  (5 <= fst pt - half)%R /\ (fst pt + half <= 210 - 5)%R /\
  (5 <= snd pt - half)%R /\ (snd pt + half <= 298 - 5)%R.

(** Every coded target and every reference dot of a page keeps a square of
    side [3 * diameter], the footprint of a target, inside the margins. *)
Definition page_inside_margins (diameter : R) (p : SvgPage) : Prop :=
  Forall (inside_margins (3 * diameter / 2))
    (map placement_centre (placements p)) /\
  Forall (inside_margins (3 * diameter / 2))
    (map circle_centre (reference_dots (svg p))).

(** ** Export and the driver *)

(** The text written to the scratch file: the fragments of the canvas
    followed by the closing tag appended in [savePDF]. *)
Inductive token : Type :=
| Elem (e : elem)
| SvgEnd.

(** What [savePDF] asks of the operating system. *)
Inductive event : Type :=
| WriteFile (name : string) (text : list token)
| Run (args : list string).

Definition INKSCAPE_EXECUTABLE : string :=
  "C://Program Files//Inkscape//bin//inkscape".

(** [str(n)] for an integer. *)
Definition py_str (n : Z) : string := NilZero.string_of_int (Z.to_int n).

(** [range(start, stop, step)] for a step other than 0 (step 0, a
    [ValueError] in Python, does not occur in the source). *)
Definition range_step (start stop step : Z) : list Z :=
  if 0 <? step
  then map (fun k => start + k * step)
         (range ((stop - start + step - 1) / step))
  else map (fun k => start + k * step)
         (range ((start - stop - step - 1) / - step)).

(** A computation that appends to the log of events and may raise; what was
    logged before an exception stays logged. *)
Definition action (A : Type) : Type := list event -> list event * result A.

Definition and_then {A B : Type} (m : action A) (k : A -> action B)
  : action B :=
  fun w =>
    match m w with
    | (w', Ok a) => k a w'
    | (w', Raise e) => (w', Raise e)
    end.

Fixpoint for_each_action {A : Type} (xs : list A) (body : A -> action unit)
  : action unit :=
  match xs with
  | [] => fun w => (w, Ok tt)
  | x :: xs' => and_then (body x) (fun _ => for_each_action xs' body)
  end.

Local Open Scope string_scope.

Section Driver.

(** [os.path.join], which depends on the platform. *)
Variable path_join : string -> string -> string.

Variable CODES : list Z.

(** The two command lines of [savePDF]. *)
Definition union_command (svg_filename : string) : list string :=
  [ INKSCAPE_EXECUTABLE; "-g"; "--without-gui"; "--select=first";
    "--actions"; "EditSelectSameObjectType";
    "--actions"; "StrokeToPath";
    "--actions"; "SelectionUnion";
    "--actions"; "FileSave";
    "--actions"; "FileQuit"; svg_filename ].

Definition export_command (filename svg_filename : string) : list string :=
  [ INKSCAPE_EXECUTABLE; "--export-filename=" ++ filename; svg_filename ].

(** [SvgPage.savePDF], under the assumption that opening the scratch file
    and starting the exporter raise nothing; the exit status of the
    exporter is not inspected by the source. *)
Definition savePDF (p : SvgPage) (filename path : string) : list event :=
  let svg_temp := (map Elem (svg p) ++ [SvgEnd])%list in
  let svg_filename := path_join path "sheet.svg" in
  [ WriteFile svg_filename svg_temp;
    Run (union_command svg_filename);
    Run (export_command filename svg_filename) ].

(** A composer as a whole: the page is composed and, unless that raised,
    handed to [savePDF]. *)
Definition save_sheet (sheet : result SvgPage) (filename path : string)
  : action unit :=
  fun w =>
    match sheet with
    | Ok p => ((w ++ savePDF p filename path)%list, Ok tt)
    | Raise e => (w, Raise e)
    end.

(** [main] *)
Definition main (argv : list string) : action unit :=
  fun w =>
    match getitem argv 1 with
    | Raise e => (w, Raise e)
    | Ok dir =>
        and_then
          (for_each_action (range_step 0 (8 * 2) 8)
             (fun n =>
                let pdf_filename :=
                  path_join dir (py_str n ++ "_grid.pdf") in
                save_sheet (create_sheet_grid CODES 20 n 4 2) pdf_filename
                  dir))
          (fun _ =>
             let pdf_filename :=
               path_join dir (py_str 16 ++ "_a.pdf") in
             and_then
               (save_sheet (create_sheet_a CODES 25 16) pdf_filename dir)
               (fun _ =>
                  let pdf_filename :=
                    path_join dir (py_str 18 ++ "_b.pdf") in
                  and_then
                    (save_sheet (create_sheet_b CODES 25 18) pdf_filename
                       dir)
                    (fun _ =>
                       let pdf_filename :=
                         path_join dir (py_str 19 ++ "_c.pdf")
                       in
                       save_sheet (create_sheet_c CODES 25 19) pdf_filename
                         dir)))
          w
    end.

End Driver.

Local Close Scope string_scope.

(** The fragments of a written text. *)
Fixpoint text_elems (t : list token) : list elem :=
  match t with
  | [] => []
  | Elem e :: t' => e :: text_elems t'
  | SvgEnd :: t' => text_elems t'
  end.

(** The texts written, in order, with the file each went to. *)
Fixpoint written (w : list event) : list (string * list token) :=
  match w with
  | [] => []
  | WriteFile name text :: w' => (name, text) :: written w'
  | Run _ :: w' => written w'
  end.

(** The command lines run, in order. *)
Fixpoint commands (w : list event) : list (list string) :=
  match w with
  | [] => []
  | Run args :: w' => args :: commands w'
  | WriteFile _ _ :: w' => commands w'
  end.

(** ** Basic facts about the canvas operations *)

Lemma append_svg_nil p : append_svg p [] = p.
Proof. destruct p; unfold append_svg; simpl. now rewrite app_nil_r. Qed.

Lemma append_svg_app p a b :
  append_svg (append_svg p a) b = append_svg p (a ++ b).
Proof. unfold append_svg; simpl. now rewrite app_assoc. Qed.

Lemma target_loop_fold x y radius code sectors p first_segment :
  fold_left (fun st i => target_loop_body x y radius code i st) sectors
    (p, first_segment)
  = (append_svg p
       (segments x y radius first_segment (filter (bit_set code) sectors)),
     first_segment && forallb (fun i => negb (bit_set code i)) sectors).
Proof.
  revert p first_segment.
  induction sectors as [|i sectors IH]; intros p first_segment; simpl.
  - now rewrite append_svg_nil, andb_true_r.
  - destruct (bit_set code i) eqn:Hi; simpl; rewrite IH.
    + now rewrite append_svg_app, andb_false_r.
    + reflexivity.
Qed.

Lemma add_target_eq p x y radius code code_num first_segment color :
  add_target p x y radius code code_num first_segment color
  = let pl := mkPlacement x y radius code code_num first_segment color in
    record_placement (append_svg p (target_elems pl)) pl.
Proof.
  unfold add_target, target_loop, add_circle.
  rewrite target_loop_fold. cbn [fst].
  rewrite !append_svg_app.
  unfold record_placement, append_svg, target_elems, drawn_sectors.
  cbn [svg placements width height unit_ margin background_margin
       background_color pl_x pl_y pl_radius pl_code pl_code_num
       pl_first_segment pl_color].
  f_equal.
Qed.

(** ** Bits *)

Lemma land_pow2_testbit c k :
  0 <= k -> (Z.land (2 ^ k) c =? 0) = negb (Z.testbit c k).
Proof.
  intros Hk. destruct (Z.testbit c k) eqn:E; simpl.
  - apply Z.eqb_neq. intro H.
    assert (H0 : Z.testbit (Z.land (2 ^ k) c) k = false)
      by (rewrite H; apply Z.bits_0).
    rewrite Z.land_spec, Z.pow2_bits_true, E in H0 by lia. discriminate.
  - apply Z.eqb_eq, Z.bits_inj'. intros n Hn.
    rewrite Z.land_spec, Z.bits_0, Z.pow2_bits_eqb by lia.
    destruct (Z.eqb_spec k n) as [->|]; simpl; auto.
Qed.

Lemma bit_set_testbit c i :
  i < BITS -> bit_set c i = Z.testbit c (BITS - 1 - i).
Proof.
  intros Hi. unfold bit_set.
  rewrite Z.shiftl_1_l, land_pow2_testbit by lia.
  apply negb_involutive.
Qed.

Lemma in_range n i : In i (range n) <-> 0 <= i < n.
Proof.
  unfold range. rewrite in_map_iff. split.
  - intros (k & <- & Hk). apply in_seq in Hk. lia.
  - intros Hi. exists (Z.to_nat i). split; [lia|]. apply in_seq. lia.
Qed.

Lemma range_forallb (P : Z -> bool) n :
  forallb P (range n) = true -> forall c, 0 <= c < n -> P c = true.
Proof.
  intros H c Hc. rewrite forallb_forall in H. now apply H, in_range.
Qed.

Lemma drawn_sectors_testbit c :
  drawn_sectors c = filter (fun i => Z.testbit c (14 - 1 - i)) (range 14).
Proof.
  unfold drawn_sectors. apply filter_ext_in. intros i Hi.
  apply in_range in Hi. apply bit_set_testbit. unfold BITS in *. lia.
Qed.

Lemma codes_checked :
  forallb (fun c =>
             Nat.eqb (List.length (drawn_sectors c)) (popcount c)
             && (decode_sectors (drawn_sectors c) =? c))
    (range (2 ^ 14)) = true.
Proof. vm_compute. reflexivity. Qed.

Lemma drawn_sectors_popcount c :
  0 <= c < 2 ^ 14 -> List.length (drawn_sectors c) = popcount c.
Proof.
  intros Hc. pose proof (range_forallb _ _ codes_checked c Hc) as H.
  apply andb_true_iff in H. now apply Nat.eqb_eq.
Qed.

Lemma decode_drawn_sectors c :
  0 <= c < 2 ^ 14 -> decode_sectors (drawn_sectors c) = c.
Proof.
  intros Hc. pose proof (range_forallb _ _ codes_checked c Hc) as H.
  apply andb_true_iff in H. now apply Z.eqb_eq.
Qed.

(** ** Segments *)

Lemma segments_length x y radius first_segment sectors :
  List.length (segments x y radius first_segment sectors)
  = List.length sectors.
Proof.
  revert first_segment.
  induction sectors; intros; simpl; [reflexivity | now rewrite IHsectors].
Qed.

Lemma arc_segments_segments x y radius first_segment sectors :
  arc_segments (segments x y radius first_segment sectors)
  = segments x y radius first_segment sectors.
Proof.
  revert first_segment.
  induction sectors; intros; simpl; [reflexivity|].
  unfold arc_segments in *. now rewrite IHsectors.
Qed.

Lemma anchors_segments_false x y radius sectors :
  anchors (segments x y radius false sectors) = [].
Proof. induction sectors; simpl; auto. Qed.

Lemma anchors_segments x y radius first_segment sectors :
  anchors (segments x y radius first_segment sectors)
  = match sectors with
    | i :: _ => if first_segment then [arc_segment x y radius i true] else []
    | [] => []
    end.
Proof.
  destruct sectors as [|i sectors]; [reflexivity|].
  destruct first_segment; simpl.
  - unfold anchors in *. now rewrite (anchors_segments_false x y radius).
  - apply (anchors_segments_false x y radius (i :: sectors)).
Qed.

Lemma arc_segments_target_elems pl :
  arc_segments (target_elems pl)
  = segments (pl_x pl) (pl_y pl) (pl_radius pl) (pl_first_segment pl)
      (drawn_sectors (pl_code pl)).
Proof.
  unfold target_elems, arc_segments. cbn [app filter is_path].
  rewrite filter_app. cbn [filter is_path]. rewrite app_nil_r.
  apply arc_segments_segments.
Qed.

Lemma anchors_target_elems pl :
  anchors (target_elems pl)
  = anchors (segments (pl_x pl) (pl_y pl) (pl_radius pl) (pl_first_segment pl)
      (drawn_sectors (pl_code pl))).
Proof.
  unfold target_elems, anchors. cbn [app filter is_anchor].
  rewrite filter_app. cbn [filter is_anchor]. now rewrite app_nil_r.
Qed.

Lemma arc_segment_spans x y radius i first_segment :
  spans_sector x y radius i (arc_segment x y radius i first_segment).
Proof.
  unfold spans_sector, arc_segment, polar, deg2rad, sector_deg, BITS.
  rewrite plus_IZR.
  replace (360 / 14 * IZR i * (PI / 180))%R
    with (360 * IZR i / 14 * PI / 180)%R by field.
  replace (360 / 14 * (IZR i + 1) * (PI / 180))%R
    with (360 * (IZR i + 1) / 14 * PI / 180)%R by field.
  repeat split; try (f_equal; lra); lra.
Qed.

Lemma segments_span x y radius first_segment sectors :
  Forall2 (spans_sector x y radius) sectors
    (segments x y radius first_segment sectors).
Proof.
  revert first_segment.
  induction sectors; intros; simpl; constructor;
    auto using arc_segment_spans.
Qed.

(** C1.  For a code [c] in [[0, 2^14)], [add_target] adds exactly
    [popcount c] path fragments to the canvas, one for each [i] in [[0, 14)]
    whose bit [14 - 1 - i] is set in [c], in increasing order of [i]; the
    fragment for [i] is an arc on the ring of radius [2.5 * radius] around
    the centre from [360*i/14] to [360*(i+1)/14] degrees. *)
Theorem add_target_arc_segments p x y radius c code_num first_segment color :
  0 <= c < 2 ^ 14 ->
  exists segs,
    arc_segments (svg (add_target p x y radius c code_num first_segment color))
      = arc_segments (svg p) ++ segs /\
    List.length segs = popcount c /\
    Forall2 (spans_sector x y radius)
      (filter (fun i => Z.testbit c (14 - 1 - i)) (range 14)) segs.
Proof.
  intros Hc.
  exists (segments x y radius first_segment (drawn_sectors c)).
  rewrite add_target_eq. cbn [svg record_placement append_svg].
  unfold arc_segments at 1. rewrite filter_app.
  fold (arc_segments (svg p)).
  fold (arc_segments
          (target_elems
             (mkPlacement x y radius c code_num first_segment color))).
  rewrite arc_segments_target_elems.
  cbn [pl_x pl_y pl_radius pl_first_segment pl_code].
  repeat split.
  - rewrite segments_length. now apply drawn_sectors_popcount.
  - rewrite <- drawn_sectors_testbit. apply segments_span.
Qed.

(** ** Sequences of placements *)

Lemma place_eq p pl :
  place p pl = record_placement (append_svg p (target_elems pl)) pl.
Proof. unfold place. rewrite add_target_eq. now destruct pl. Qed.

Lemma place_all_eq pls : forall p,
  place_all p pls
  = mkSvgPage (width p) (height p) (unit_ p) (margin p) (background_margin p)
      (background_color p) (svg p ++ flat_map target_elems pls)
      (placements p ++ pls).
Proof.
  unfold place_all.
  induction pls as [|pl pls IH]; intros p; cbn [fold_left flat_map].
  - destruct p; simpl. now rewrite !app_nil_r.
  - rewrite IH, place_eq. unfold record_placement, append_svg.
    cbn [svg placements width height unit_ margin background_margin
         background_color].
    now rewrite <- !app_assoc.
Qed.

Lemma place_all_app p a b :
  place_all p (a ++ b) = place_all (place_all p a) b.
Proof. unfold place_all. apply fold_left_app. Qed.

Lemma for_each_total {A S : Type} (xs : list A) (body : A -> S -> result S)
  (f : A -> S -> S) :
  (forall x s, In x xs -> body x s = Ok (f x s)) ->
  forall s, for_each xs body s = Ok (fold_left (fun s x => f x s) xs s).
Proof.
  induction xs as [|x xs IH]; intros H s; simpl; [reflexivity|].
  rewrite H by now left. simpl. apply IH. intros; apply H; now right.
Qed.

Lemma fold_place_cells {A : Type} (g : A -> list placement) (xs : list A) :
  forall p,
    fold_left (fun p x => place_all p (g x)) xs p
    = place_all p (flat_map g xs).
Proof.
  induction xs as [|x xs IH]; intros p; simpl; [reflexivity|].
  now rewrite IH, place_all_app.
Qed.

Lemma getitem_in_range {A : Type} (l : list A) (i : Z) :
  0 <= i < Z.of_nat (List.length l) ->
  exists a, nth_error l (Z.to_nat i) = Some a /\ getitem l i = Ok a.
Proof.
  intros Hi. unfold getitem.
  assert (E0 : (i <? 0) = false) by (apply Z.ltb_ge; lia).
  assert (E1 : (Z.of_nat (List.length l) <=? i) = false)
    by (apply Z.leb_gt; lia).
  cbv zeta. rewrite E0, E1, E0. cbn [orb].
  destruct (nth_error l (Z.to_nat i)) as [a|] eqn:E; [now exists a|].
  apply nth_error_None in E. lia.
Qed.

Lemma getitem_beyond {A : Type} (l : list A) (i : Z) :
  Z.of_nat (List.length l) <= i -> getitem l i = Raise IndexError.
Proof.
  intros Hi. unfold getitem.
  assert (E0 : (i <? 0) = false) by (apply Z.ltb_ge; lia).
  assert (E1 : (Z.of_nat (List.length l) <=? i) = true)
    by (apply Z.leb_le; lia).
  cbv zeta. now rewrite E0, E1, E0.
Qed.

Lemma placements_add_target p x y radius code code_num first_segment color :
  placements (add_target p x y radius code code_num first_segment color)
  = placements p
    ++ [mkPlacement x y radius code code_num first_segment color].
Proof. now rewrite add_target_eq. Qed.

Lemma getitem_from_the_end {A : Type} (l : list A) (i : Z) :
  - Z.of_nat (List.length l) <= i < 0 ->
  exists a,
    nth_error l (Z.to_nat (Z.of_nat (List.length l) + i)) = Some a /\
    getitem l i = Ok a.
Proof.
  intros Hi. unfold getitem.
  assert (E0 : (i <? 0) = true) by (apply Z.ltb_lt; lia).
  assert (E1 : (i + Z.of_nat (List.length l) <? 0) = false)
    by (apply Z.ltb_ge; lia).
  assert (E2 : (Z.of_nat (List.length l) <=? i + Z.of_nat (List.length l))
               = false) by (apply Z.leb_gt; lia).
  cbv zeta. rewrite E0, E1, E2. cbn [orb].
  rewrite (Z.add_comm i).
  destruct (nth_error l _) as [a|] eqn:E; [now exists a|].
  apply nth_error_None in E. lia.
Qed.

Lemma getitem_before_the_start {A : Type} (l : list A) (i : Z) :
  i < - Z.of_nat (List.length l) -> getitem l i = Raise IndexError.
Proof.
  intros Hi. unfold getitem.
  assert (E0 : (i <? 0) = true) by (apply Z.ltb_lt; lia).
  assert (E1 : (i + Z.of_nat (List.length l) <? 0) = true)
    by (apply Z.ltb_lt; lia).
  cbv zeta. now rewrite E0, E1.
Qed.




Section GridFacts.

Variable CODES : list Z.

(** The complete result of [create_sheet_grid]: unless [cols] or [rows] is
    exactly 1, the page consists of the header, the background rectangle and
    the fragments of the non-empty cells in row-major order. *)
Lemma create_sheet_grid_ok diameter code_index rows cols :
  0 <= code_index -> rows <> 1 -> cols <> 1 ->
  create_sheet_grid CODES diameter code_index rows cols
  = Ok (grid_page CODES diameter code_index rows cols).
Proof.
  intros Hidx Hrows Hcols. unfold create_sheet_grid, py_div.
  destruct (Z.eqb_spec (cols - 1) 0); [lia|].
  destruct (Z.eqb_spec (rows - 1) 0); [lia|].
  cbn [bind].
  rewrite for_each_total
    with (f := fun i p =>
                 place_all p
                   (flat_map
                      (fun j =>
                         olist (grid_cell CODES diameter code_index rows cols
                                  i j)) (range cols))).
  - now rewrite fold_place_cells.
  - intros i p Hi. apply in_range in Hi.
    rewrite for_each_total
      with (f := fun j p =>
                   place_all p
                     (olist (grid_cell CODES diameter code_index rows cols
                               i j))).
    + now rewrite fold_place_cells.
    + intros j q Hj. apply in_range in Hj. unfold grid_cell.
      destruct (Z.ltb_spec (code_index + i * cols + j) (len_CODES CODES))
        as [Hlt|Hge]; [|reflexivity].
      destruct (getitem_in_range CODES (code_index + i * cols + j))
        as (code & Hnth & Hget); [unfold len_CODES in Hlt; nia|].
      rewrite Hget, Hnth. reflexivity.
Qed.

Lemma grid_page_placements diameter code_index rows cols :
  placements (grid_page CODES diameter code_index rows cols)
  = grid_cells CODES diameter code_index rows cols.
Proof. unfold grid_page. now rewrite place_all_eq. Qed.




End GridFacts.

(** ** Invariants of reachable canvases *)

Lemma anchors_app a b : anchors (a ++ b) = anchors a ++ anchors b.
Proof. apply filter_app. Qed.

Lemma arc_segments_app a b :
  arc_segments (a ++ b) = arc_segments a ++ arc_segments b.
Proof. apply filter_app. Qed.

Lemma labels_app a b : labels (a ++ b) = labels a ++ labels b.
Proof.
  induction a as [|e a IH]; simpl; [reflexivity|].
  destruct e; simpl; now rewrite IH.
Qed.

Lemma labels_segments x y radius first_segment sectors :
  labels (segments x y radius first_segment sectors) = [].
Proof.
  revert first_segment. induction sectors; intros; simpl; auto.
Qed.

Lemma labels_target_elems pl :
  labels (target_elems pl) = [pl_code_num pl + 1].
Proof.
  unfold target_elems. cbn [app labels].
  now rewrite labels_app, labels_segments.
Qed.

Lemma anchors_placement pl : anchors (target_elems pl) = placement_anchor pl.
Proof.
  rewrite anchors_target_elems, anchors_segments. unfold placement_anchor.
  destruct (drawn_sectors (pl_code pl)), (pl_first_segment pl); reflexivity.
Qed.

Lemma svg_add_target p x y radius code code_num first_segment color :
  svg (add_target p x y radius code code_num first_segment color)
  = svg p
    ++ target_elems
         (mkPlacement x y radius code code_num first_segment color).
Proof. now rewrite add_target_eq. Qed.

(** Every anchor on a canvas is the first segment of a placement called with
    [first_segment = True], in call order. *)
Lemma reachable_anchors p :
  reachable p -> anchors (svg p) = flat_map placement_anchor (placements p).
Proof.
  induction 1 as [| p x y radius color _ IH | p x y r c n f col _ IH].
  - reflexivity.
  - unfold add_circle, append_svg; cbn [svg placements].
    now rewrite anchors_app, IH, app_nil_r.
  - rewrite svg_add_target, placements_add_target.
    rewrite anchors_app, flat_map_app, IH, anchors_placement.
    cbn [flat_map]. now rewrite app_nil_r.
Qed.

Lemma reachable_labels p :
  reachable p ->
  labels (svg p) = map (fun pl => pl_code_num pl + 1) (placements p).
Proof.
  induction 1 as [| p x y radius color _ IH | p x y r c n f col _ IH].
  - reflexivity.
  - unfold add_circle, append_svg; cbn [svg placements].
    now rewrite labels_app, IH, app_nil_r.
  - rewrite svg_add_target, placements_add_target.
    now rewrite labels_app, map_app, IH, labels_target_elems.
Qed.

Lemma drawn_sectors_mod c : drawn_sectors c = drawn_sectors (c mod 2 ^ 14).
Proof.
  rewrite !drawn_sectors_testbit. apply filter_ext_in. intros i Hi.
  apply in_range in Hi. now rewrite Z.mod_pow2_bits_low by lia.
Qed.

Lemma drawn_sectors_nil c : drawn_sectors c = [] <-> c mod 2 ^ 14 = 0.
Proof.
  split; intros H.
  - rewrite <- (decode_drawn_sectors (c mod 2 ^ 14))
      by (apply Z.mod_pos_bound; lia).
    now rewrite <- drawn_sectors_mod, H.
  - rewrite drawn_sectors_mod, H. reflexivity.
Qed.

(** ** Reading sectors back from the arcs *)

Lemma cos_not_one x : (0 < x < 2 * PI)%R -> cos x <> 1%R.
Proof.
  intros [H0 H1] Hcos.
  assert (Hs : (0 < sin (x / 2))%R) by (apply sin_gt_0; lra).
  replace x with (2 * (x / 2))%R in Hcos by field.
  rewrite cos_2a_sin in Hcos. nra.
Qed.

Lemma same_direction_same_angle a b :
  (0 < b - a < 2 * PI)%R -> cos a = cos b -> sin a = sin b -> False.
Proof.
  intros Hab Hc Hs. apply (cos_not_one (b - a) Hab).
  rewrite cos_minus, <- Hc, <- Hs.
  pose proof (sin2_cos2 a) as H. unfold Rsqr in H. lra.
Qed.

Lemma polar_injective x y rho i j :
  rho <> 0%R -> 0 <= i < 14 -> 0 <= j < 14 ->
  polar x y rho (360 * IZR i / 14) = polar x y rho (360 * IZR j / 14) ->
  i = j.
Proof.
  intros Hrho Hi Hj Heq. unfold polar in Heq. injection Heq as Hx Hy.
  apply Rplus_eq_reg_l, Rmult_eq_reg_l in Hx, Hy; try assumption.
  pose proof PI_RGT_0 as Hpi.
  destruct (Z.lt_trichotomy i j) as [Hlt|[Heq|Hgt]]; [|assumption|]; exfalso.
  - apply (same_direction_same_angle _ _) with (2 := Hx) (3 := Hy).
    assert (H1 : (1 <= IZR j - IZR i)%R)
      by (rewrite <- minus_IZR; apply IZR_le; lia).
    assert (H2 : (IZR j - IZR i <= 13)%R)
      by (rewrite <- minus_IZR; apply IZR_le; lia).
    split; nra.
  - apply (same_direction_same_angle _ _) with (2 := eq_sym Hx)
                                                (3 := eq_sym Hy).
    assert (H1 : (1 <= IZR i - IZR j)%R)
      by (rewrite <- minus_IZR; apply IZR_le; lia).
    assert (H2 : (IZR i - IZR j <= 13)%R)
      by (rewrite <- minus_IZR; apply IZR_le; lia).
    split; nra.
Qed.

(** An arc of a target with a non-zero radius spans one sector only. *)
Lemma spans_sector_unique x y radius i j e :
  radius <> 0%R -> 0 <= i < 14 -> 0 <= j < 14 ->
  spans_sector x y radius i e -> spans_sector x y radius j e -> i = j.
Proof.
  intros Hr Hi Hj Hsi Hsj. destruct e; try contradiction.
  destruct Hsi as (Hi0 & _), Hsj as (Hj0 & _).
  apply (polar_injective x y (5 / 2 * radius)); try assumption; [lra|].
  now rewrite <- Hi0, <- Hj0.
Qed.

Lemma spans_sectors_unique x y radius segs : forall secs secs',
  radius <> 0%R ->
  Forall (fun i => 0 <= i < 14) secs -> Forall (fun i => 0 <= i < 14) secs' ->
  Forall2 (spans_sector x y radius) secs segs ->
  Forall2 (spans_sector x y radius) secs' segs ->
  secs = secs'.
Proof.
  induction segs as [|e segs IH]; intros secs secs' Hr Hin Hin' H H';
    inversion H; inversion H'; subst; [reflexivity|].
  inversion Hin; inversion Hin'; subst. f_equal.
  - eapply spans_sector_unique; eassumption.
  - now apply IH.
Qed.

Lemma drawn_sectors_in_range c :
  Forall (fun i => 0 <= i < 14) (drawn_sectors c).
Proof.
  apply Forall_forall. intros i Hi. unfold drawn_sectors in Hi.
  apply filter_In in Hi as [Hi _]. now apply in_range in Hi.
Qed.

(** C2.  For a code [c] in [[0, 2^14)], the sectors in which [add_target]
    draws a segment decode back to [c]: summing [2^(13-i)] over the sectors
    [i] that received a segment gives [c].  When the radius is not zero the
    arcs themselves determine these sectors, so every reading of the
    emitted arcs as sectors decodes to [c]. *)
Theorem add_target_round_trip p x y radius c code_num first_segment color :
  0 <= c < 2 ^ 14 ->
  exists sectors segs,
    arc_segments (svg (add_target p x y radius c code_num first_segment color))
      = arc_segments (svg p) ++ segs /\
    Forall2 (spans_sector x y radius) sectors segs /\
    sectors = drawn_sectors c /\
    decode_sectors sectors = c /\
    (radius <> 0%R ->
     forall secs,
       Forall (fun i => 0 <= i < 14) secs ->
       Forall2 (spans_sector x y radius) secs segs ->
       decode_sectors secs = c).
Proof.
  intros Hc.
  exists (drawn_sectors c),
    (segments x y radius first_segment (drawn_sectors c)).
  rewrite svg_add_target, arc_segments_app, arc_segments_target_elems.
  cbn [pl_x pl_y pl_radius pl_first_segment pl_code].
  split; [reflexivity|]. split; [apply segments_span|].
  split; [reflexivity|]. split; [now apply decode_drawn_sectors|].
  intros Hr secs Hin Hspan.
  rewrite (spans_sectors_unique x y radius
             (segments x y radius first_segment (drawn_sectors c))
             secs (drawn_sectors c));
    auto using drawn_sectors_in_range, segments_span, decode_drawn_sectors.
Qed.

(** ** Every composer builds its page with the canvas operations *)

Lemma for_each_preserves {A S : Type} (P : S -> Prop) (xs : list A)
  (body : A -> S -> result S) :
  (forall x s s', P s -> body x s = Ok s' -> P s') ->
  forall s s', P s -> for_each xs body s = Ok s' -> P s'.
Proof.
  intros Hbody. induction xs as [|x xs IH]; intros s s' Hs; simpl.
  - now intros [= <-].
  - destruct (body x s) as [s1|e] eqn:E; simpl; [|discriminate].
    apply IH. eapply Hbody; eassumption.
Qed.

Section Reachability.

Variable CODES : list Z.

Lemma create_sheet_grid_reachable diameter code_index rows cols p :
  create_sheet_grid CODES diameter code_index rows cols = Ok p -> reachable p.
Proof.
  unfold create_sheet_grid, py_div.
  destruct (cols - 1 =? 0); [discriminate|].
  destruct (rows - 1 =? 0); [discriminate|]. cbn [bind].
  apply for_each_preserves with (P := reachable); [|apply reachable_init].
  intros i s s' Hs. apply for_each_preserves with (P := reachable); [|exact Hs].
  clear. intros j s s' Hs.
  destruct (_ <? _); [|now intros [= <-]].
  destruct (getitem CODES _); cbn [bind]; [|discriminate].
  intros [= <-]. now apply reachable_target.
Qed.

Lemma create_sheet_a_reachable diameter code_index p :
  create_sheet_a CODES diameter code_index = Ok p -> reachable p.
Proof.
  unfold create_sheet_a.
  destruct (getitem CODES code_index); cbn [bind]; [|discriminate].
  destruct (getitem CODES (code_index + 1)); cbn [bind]; [|discriminate].
  intros [= <-].
  repeat (apply reachable_circle || apply reachable_target).
  apply reachable_init.
Qed.

Lemma create_sheet_b_reachable diameter code_index p :
  create_sheet_b CODES diameter code_index = Ok p -> reachable p.
Proof.
  unfold create_sheet_b.
  destruct (sheet_b_slot _ _ code_index) as [[[col row] cx] cy].
  destruct (getitem CODES code_index); cbn [bind]; [|discriminate].
  intros [= <-].
  repeat (apply reachable_circle || apply reachable_target).
  apply reachable_init.
Qed.

Lemma create_sheet_c_reachable diameter code_index p :
  create_sheet_c CODES diameter code_index = Ok p -> reachable p.
Proof.
  unfold create_sheet_c.
  destruct (getitem CODES code_index); cbn [bind]; [|discriminate].
  intros [= <-].
  repeat (apply reachable_circle || apply reachable_target).
  apply reachable_init.
Qed.

End Reachability.

Lemma reachable_no_anchor p :
  reachable p ->
  (forall pl,
      In pl (placements p) -> pl_first_segment pl = true -> pl_code pl = 0) ->
  anchors (svg p) = [].
Proof.
  intros Hp Hzero.
  rewrite reachable_anchors by assumption.
  induction (placements p) as [|pl pls IH]; [reflexivity|].
  cbn [flat_map]. rewrite IH by (intros; apply Hzero; simpl; auto).
  rewrite app_nil_r. unfold placement_anchor.
  destruct (pl_first_segment pl) eqn:E; [|reflexivity].
  rewrite (Hzero pl) by (simpl; auto). reflexivity.
Qed.

(** C10.  With code 0, [add_target] appends the centre dot, an empty group
    and the label, and nothing else: no path and no anchor, whatever
    [first_segment] is.  Hence a canvas on which every placement called with
    [first_segment = True] has code 0 carries no anchor at all; this holds
    for any canvas built by the canvas operations, and so for every page a
    composer returns. *)
Theorem add_target_code_zero :
  (forall p x y radius code_num first_segment color,
      let p' := add_target p x y radius 0 code_num first_segment color in
      svg p'
      = svg p
        ++ [ Circle color x y radius;
             GroupOpen color radius;
             GroupClose;
             Text (x - radius * 3)%R (y + radius * 3)%R (radius / 2)%R color
               (code_num + 1) ] /\
      arc_segments (svg p') = arc_segments (svg p) /\
      anchors (svg p') = anchors (svg p)) /\
  (forall p,
      reachable p ->
      (forall pl,
          In pl (placements p) -> pl_first_segment pl = true ->
          pl_code pl = 0) ->
      anchors (svg p) = []) /\
  (forall CODES diameter code_index rows cols p,
      create_sheet_grid CODES diameter code_index rows cols = Ok p \/
      create_sheet_a CODES diameter code_index = Ok p \/
      create_sheet_b CODES diameter code_index = Ok p \/
      create_sheet_c CODES diameter code_index = Ok p ->
      (forall pl,
          In pl (placements p) -> pl_first_segment pl = true ->
          pl_code pl = 0) ->
      anchors (svg p) = []).
Proof.
  split; [|split].
  - intros. subst p'. rewrite svg_add_target.
    rewrite arc_segments_app, anchors_app.
    repeat split; now rewrite app_nil_r.
  - apply reachable_no_anchor.
  - intros CODES diameter code_index rows cols p Hp.
    apply reachable_no_anchor.
    destruct Hp as [Hp|[Hp|[Hp|Hp]]];
      eauto using create_sheet_grid_reachable, create_sheet_a_reachable,
        create_sheet_b_reachable, create_sheet_c_reachable.
Qed.

(** ** The fixed sheets *)

Lemma reference_dots_segments x y radius first_segment sectors rest :
  reference_dots (segments x y radius first_segment sectors ++ rest)
  = reference_dots rest.
Proof.
  revert first_segment. induction sectors; intros; simpl; auto.
Qed.

Lemma reference_dots_target_elems pl rest :
  reference_dots (target_elems pl ++ rest) = reference_dots rest.
Proof.
  unfold target_elems. rewrite <- !app_assoc. cbn [app reference_dots].
  now rewrite reference_dots_segments.
Qed.

Section SheetFacts.

Variable CODES : list Z.

Lemma create_sheet_a_ok diameter code_index code0 code1 :
  getitem CODES code_index = Ok code0 ->
  getitem CODES (code_index + 1) = Ok code1 ->
  create_sheet_a CODES diameter code_index
  = let pl0 := mkPlacement (210 / 4)%R (298 / 4)%R (diameter / 2)%R code0
                 code_index true default_color in
    let pl1 := mkPlacement (210 / 4 * 3)%R (298 / 4 * 3)%R (diameter / 2)%R
                 code1 (code_index + 1) false default_color in
    Ok (mkSvgPage 210 298 "mm" 5 5 "#fff"
          (default_header ++ target_elems pl0 ++ target_elems pl1
           ++ [ corner_dot diameter 1 0 3; corner_dot diameter 1 1 3;
                corner_dot diameter 0 2 3; corner_dot diameter 0 3 3 ])
          [pl0; pl1]).
Proof.
  intros H0 H1. unfold create_sheet_a. rewrite H0. cbn [bind].
  rewrite H1. cbn [bind]. rewrite !add_target_eq.
  cbv beta iota zeta delta
    [add_circle record_placement append_svg svg placements width height
     unit_ margin background_margin background_color SvgPage_init get_width
     get_height get_margin].
  rewrite <- !app_assoc. reflexivity.
Qed.

Lemma create_sheet_b_ok diameter code_index code :
  getitem CODES code_index = Ok code ->
  create_sheet_b CODES diameter code_index
  = let '(col, row, coded_x, coded_y) :=
      sheet_b_slot 210 298 code_index in
    let pl := mkPlacement coded_x coded_y (diameter / 2)%R code code_index
                true default_color in
    Ok (mkSvgPage 210 298 "mm" 5 5 "#fff"
          (default_header ++ target_elems pl
           ++ [ corner_dot diameter (IZR col) (IZR row) 3;
                corner_dot diameter (IZR col) (IZR (row + 1)) 3;
                corner_dot diameter 1 0 3; corner_dot diameter 1 1 3;
                corner_dot diameter 0 2 3; corner_dot diameter 0 3 3 ])
          [pl]).
Proof.
  intros H. unfold create_sheet_b.
  cbn [SvgPage_init get_width get_height get_margin width height margin].
  change default_width with 210%R. change default_height with 298%R.
  destruct (sheet_b_slot 210 298 code_index) as [[[col row] cx] cy].
  rewrite H. cbn [bind]. rewrite !add_target_eq.
  cbv beta iota zeta delta
    [add_circle record_placement append_svg svg placements width height
     unit_ margin background_margin background_color SvgPage_init get_width
     get_height get_margin].
  rewrite <- !app_assoc. reflexivity.
Qed.

Lemma create_sheet_c_ok diameter code_index code :
  getitem CODES code_index = Ok code ->
  create_sheet_c CODES diameter code_index
  = let pl := mkPlacement (210 / 2)%R (298 / 2)%R (diameter / 2)%R code
                code_index true default_color in
    Ok (mkSvgPage 210 298 "mm" 5 5 "#fff"
          (default_header ++ target_elems pl
           ++ [ corner_dot diameter 0 0 2; corner_dot diameter 1 0 2;
                corner_dot diameter 0 2 2; corner_dot diameter 1 2 2 ])
          [pl]).
Proof.
  intros H. unfold create_sheet_c. rewrite H. cbn [bind].
  rewrite !add_target_eq.
  cbv beta iota zeta delta
    [add_circle record_placement append_svg svg placements width height
     unit_ margin background_margin background_color SvgPage_init get_width
     get_height get_margin].
  rewrite <- !app_assoc. reflexivity.
Qed.

Lemma create_sheet_a_index_error diameter code_index :
  0 <= code_index -> len_CODES CODES <= code_index + 1 ->
  create_sheet_a CODES diameter code_index = Raise IndexError.
Proof.
  intros Hidx Hlen. unfold create_sheet_a, len_CODES in *.
  destruct (Z_lt_le_dec code_index (Z.of_nat (List.length CODES))) as [Hlt|Hge].
  - destruct (getitem_in_range CODES code_index) as (c & _ & ->); [lia|].
    cbn [bind]. rewrite getitem_beyond by lia. reflexivity.
  - rewrite getitem_beyond by lia. reflexivity.
Qed.

Lemma create_sheet_b_index_error diameter code_index :
  len_CODES CODES <= code_index ->
  create_sheet_b CODES diameter code_index = Raise IndexError.
Proof.
  intros Hlen. unfold create_sheet_b, len_CODES in *.
  destruct (sheet_b_slot _ _ code_index) as [[[col row] cx] cy].
  rewrite getitem_beyond by lia. reflexivity.
Qed.

Lemma create_sheet_c_index_error diameter code_index :
  len_CODES CODES <= code_index ->
  create_sheet_c CODES diameter code_index = Raise IndexError.
Proof.
  intros Hlen. unfold create_sheet_c, len_CODES in *.
  rewrite getitem_beyond by lia. reflexivity.
Qed.

End SheetFacts.

(** ** Page-level facts *)

Lemma placement_anchor_length pl :
  (List.length (placement_anchor pl) <= 1)%nat.
Proof.
  unfold placement_anchor.
  destruct (pl_first_segment pl), (drawn_sectors (pl_code pl)); simpl; lia.
Qed.

Lemma placement_anchor_true pl :
  pl_first_segment pl = true ->
  (pl_code pl mod 2 ^ 14 <> 0 ->
   List.length (placement_anchor pl) = 1%nat) /\
  (pl_code pl mod 2 ^ 14 = 0 -> placement_anchor pl = []).
Proof.
  intros Hf. unfold placement_anchor. rewrite Hf.
  pose proof (drawn_sectors_nil (pl_code pl)) as Hnil.
  destruct (drawn_sectors (pl_code pl)) as [|i l]; split; intros H; auto.
  - exfalso. apply H, Hnil. reflexivity.
  - apply Hnil in H. discriminate.
Qed.

Lemma anchors_default_header : anchors default_header = [].
Proof. reflexivity. Qed.

Lemma single_anchor_intro p pl rest dots :
  svg p = default_header ++ flat_map target_elems (pl :: rest) ++ dots ->
  placements p = pl :: rest ->
  pl_first_segment pl = true ->
  Forall (fun q => pl_first_segment q = false) rest ->
  anchors dots = [] ->
  single_anchor_page p.
Proof.
  intros Hsvg Hpl Hf Hrest Hdots. exists pl, rest.
  assert (Ha : anchors (svg p) = placement_anchor pl).
  { rewrite Hsvg, !anchors_app, anchors_default_header, Hdots, app_nil_r.
    cbn [flat_map app]. rewrite anchors_app, anchors_placement.
    assert (Hr : anchors (flat_map target_elems rest) = []).
    { clear Hpl Hsvg. induction Hrest as [|q rest Hq _ IH]; [reflexivity|].
      cbn [flat_map]. rewrite anchors_app, anchors_placement, IH.
      unfold placement_anchor. now rewrite Hq. }
    now rewrite Hr, app_nil_r. }
  rewrite Ha. destruct (placement_anchor_true pl Hf) as [H1 H0].
  repeat split; auto using placement_anchor_length.
Qed.

Section PageFacts.

Variable CODES : list Z.

Lemma sheet_b_slot_even w h code_index :
  code_index mod 2 = 0 ->
  sheet_b_slot w h code_index = (0, 0, (w / 4 * 3)%R, (h / 4 * 3)%R).
Proof. intros H. unfold sheet_b_slot. now rewrite H. Qed.

Lemma sheet_b_slot_odd w h code_index :
  code_index mod 2 = 1 ->
  sheet_b_slot w h code_index = (1, 2, (w / 4)%R, (h / 4)%R).
Proof. intros H. unfold sheet_b_slot. now rewrite H. Qed.

(** C3 (as amended).  On every page produced by [create_sheet_a],
    [create_sheet_b] or [create_sheet_c], exactly one placement - the first -
    is called with [first_segment = True]; an anchor can only be the first
    segment of that placement, so the page carries at most one anchor,
    exactly one when the low 14 bits of that placement's code are not all
    zero and none otherwise. *)
Theorem fixed_sheets_single_anchor diameter code_index :
  0 <= code_index ->
  (code_index + 1 < len_CODES CODES ->
   exists p, create_sheet_a CODES diameter code_index = Ok p /\
             single_anchor_page p) /\
  (code_index < len_CODES CODES ->
   exists p, create_sheet_b CODES diameter code_index = Ok p /\
             single_anchor_page p) /\
  (code_index < len_CODES CODES ->
   exists p, create_sheet_c CODES diameter code_index = Ok p /\
             single_anchor_page p).
Proof.
  intros Hidx. unfold len_CODES. repeat split; intros Hlen.
  - destruct (getitem_in_range CODES code_index) as (c0 & _ & H0); [lia|].
    destruct (getitem_in_range CODES (code_index + 1)) as (c1 & _ & H1);
      [lia|].
    rewrite (create_sheet_a_ok CODES diameter code_index c0 c1 H0 H1).
    eexists; split; [reflexivity|].
    eapply single_anchor_intro; [ | reflexivity | .. ];
      [ cbn [svg flat_map]; rewrite <- !app_assoc; reflexivity
      | reflexivity | repeat constructor | reflexivity ].
  - destruct (getitem_in_range CODES code_index) as (c & _ & H0); [lia|].
    rewrite (create_sheet_b_ok CODES diameter code_index c H0).
    destruct (sheet_b_slot 210 298 code_index) as [[[col row] cx] cy].
    eexists; split; [reflexivity|].
    eapply single_anchor_intro; [ | reflexivity | .. ];
      [ cbn [svg flat_map]; rewrite <- !app_assoc; reflexivity
      | reflexivity | constructor | reflexivity ].
  - destruct (getitem_in_range CODES code_index) as (c & _ & H0); [lia|].
    rewrite (create_sheet_c_ok CODES diameter code_index c H0).
    eexists; split; [reflexivity|].
    eapply single_anchor_intro; [ | reflexivity | .. ];
      [ cbn [svg flat_map]; rewrite <- !app_assoc; reflexivity
      | reflexivity | constructor | reflexivity ].
Qed.

End PageFacts.

Lemma fixed_sheets_single_anchor_witness :
  (exists p, create_sheet_a sample_codes 25 16 = Ok p /\
             single_anchor_page p) /\
  (exists p, create_sheet_b sample_codes 25 16 = Ok p /\
             single_anchor_page p) /\
  (exists p, create_sheet_c sample_codes 25 16 = Ok p /\
             single_anchor_page p).
Proof.
  destruct (fixed_sheets_single_anchor sample_codes 25 16) as (Ha & Hb & Hc);
    [lia|].
  repeat split; [apply Ha | apply Hb | apply Hc]; vm_compute; reflexivity.
Defined.

(** The statement of C3 fails on the code: a page whose coded target has
    code 0 carries no anchor, and a grid page calls every placement with
    [first_segment = True] and carries one anchor per target. *)
Lemma anchor_claim_counterexample :
  (exists p, create_sheet_c [0] 25 0 = Ok p /\
             List.length (anchors (svg p)) = 0%nat) /\
  (exists p, create_sheet_grid sample_codes 20 0 4 2 = Ok p /\
             List.length (anchors (svg p)) = 8%nat /\
             List.length (filter pl_first_segment (placements p)) = 8%nat).
Proof.
  split.
  - rewrite (create_sheet_c_ok [0] 25 0 0) by reflexivity.
    eexists; split; reflexivity.
  - rewrite create_sheet_grid_ok by lia.
    eexists; split; [reflexivity|]. unfold grid_page. rewrite place_all_eq.
    split; lazy; reflexivity.
Qed.

(** ** The grid *)

Section GridCellFacts.

Variable CODES : list Z.
Variables (diameter : R) (code_index rows cols : Z).

Lemma grid_cell_some i j :
  0 <= code_index + i * cols + j < len_CODES CODES ->
  exists code,
    nth_error CODES (Z.to_nat (code_index + i * cols + j)) = Some code /\
    grid_cell CODES diameter code_index rows cols i j
    = Some (mkPlacement (grid_x diameter cols j) (grid_y diameter rows i)
              (diameter / 2)%R code (code_index + i * cols + j) true
              default_color).
Proof.
  intros Hnum. unfold grid_cell.
  destruct (getitem_in_range CODES (code_index + i * cols + j) Hnum)
    as (code & Hnth & _).
  exists code. split; [assumption|].
  rewrite (proj2 (Z.ltb_lt _ _)) by lia. now rewrite Hnth.
Qed.

Lemma grid_cell_none i j :
  len_CODES CODES <= code_index + i * cols + j -> grid_cell CODES diameter code_index rows cols i j = None.
Proof.
  intros Hnum. unfold grid_cell.
  now rewrite (proj2 (Z.ltb_ge _ _)) by lia.
Qed.

Lemma grid_cell_inv i j pl :
  grid_cell CODES diameter code_index rows cols i j = Some pl ->
  code_index + i * cols + j < len_CODES CODES /\
  nth_error CODES (Z.to_nat (code_index + i * cols + j)) = Some (pl_code pl) /\
  pl = mkPlacement (grid_x diameter cols j) (grid_y diameter rows i)
         (diameter / 2)%R (pl_code pl) (code_index + i * cols + j) true
         default_color.
Proof.
  unfold grid_cell.
  destruct (Z.ltb_spec (code_index + i * cols + j) (len_CODES CODES));
    [|discriminate].
  destruct (nth_error CODES _) as [code|]; [|discriminate].
  intros [= <-]. auto.
Qed.

Lemma in_grid_cells pl :
  In pl (grid_cells CODES diameter code_index rows cols) <->
  exists i j, 0 <= i < rows /\ 0 <= j < cols /\ grid_cell CODES diameter code_index rows cols i j = Some pl.
Proof.
  unfold grid_cells. rewrite in_flat_map. split.
  - intros (i & Hi & Hin). apply in_flat_map in Hin as (j & Hj & Hin).
    apply in_range in Hi, Hj. exists i, j. repeat split; try lia.
    destruct (grid_cell CODES diameter code_index rows cols i j);
      simpl in Hin; [|tauto].
    destruct Hin as [->|[]]. reflexivity.
  - intros (i & j & Hi & Hj & Hc). exists i. split; [now apply in_range|].
    apply in_flat_map. exists j. split; [now apply in_range|].
    rewrite Hc. now left.
Qed.


End GridCellFacts.

Lemma labels_targets pls :
  labels (flat_map target_elems pls)
  = map (fun pl => pl_code_num pl + 1) pls.
Proof.
  induction pls as [|pl pls IH]; [reflexivity|].
  cbn [flat_map map]. now rewrite labels_app, labels_target_elems, IH.
Qed.

Section GridTheorems.

Variable CODES : list Z.
Variable diameter : R.

Lemma grid_page_labels code_index rows cols :
  labels (svg (grid_page CODES diameter code_index rows cols))
  = map (fun pl => pl_code_num pl + 1)
      (grid_cells CODES diameter code_index rows cols).
Proof.
  unfold grid_page. rewrite place_all_eq. cbn [svg SvgPage_init].
  now rewrite labels_app, labels_targets.
Qed.

(** C7.  [create_sheet_grid] fills the matrix row by row: its placements are
    the contents of the cells [(i, j)] in row-major order, where a cell holds
    the code at index [code_index + i * cols + j] when the list has one
    there and is empty otherwise.  With 4 rows, 2 columns and start 0 over at
    least 16 codes there are 8 placements, printed 1 to 8; with start 12
    over exactly 16 codes there are 4 placements (indices 12 to 15) and the
    cells of rows 2 and 3 are empty. *)
Theorem create_sheet_grid_row_major :
  (forall code_index rows cols,
      0 <= code_index -> rows <> 1 -> cols <> 1 ->
      exists p,
        create_sheet_grid CODES diameter code_index rows cols = Ok p /\
        placements p
        = flat_map
            (fun i =>
               flat_map
                 (fun j =>
                    olist (grid_cell CODES diameter code_index rows cols i j))
                 (range cols))
            (range rows) /\
        labels (svg p) = map (fun pl => pl_code_num pl + 1) (placements p) /\
        forall i j,
          let num := code_index + i * cols + j in
          (0 <= num < len_CODES CODES ->
           exists code,
             nth_error CODES (Z.to_nat num) = Some code /\
             grid_cell CODES diameter code_index rows cols i j
             = Some (mkPlacement (grid_x diameter cols j)
                       (grid_y diameter rows i) (diameter / 2)%R code num
                       true default_color)) /\
          (len_CODES CODES <= num ->
           grid_cell CODES diameter code_index rows cols i j = None)) /\
  (16 <= len_CODES CODES ->
   exists p,
     create_sheet_grid CODES diameter 0 4 2 = Ok p /\
     Forall2
       (fun pl ij =>
          grid_cell CODES diameter 0 4 2 (fst ij) (snd ij) = Some pl)
       (placements p)
       [(0, 0); (0, 1); (1, 0); (1, 1); (2, 0); (2, 1); (3, 0); (3, 1)] /\
     map pl_code_num (placements p) = [0; 1; 2; 3; 4; 5; 6; 7] /\
     labels (svg p) = [1; 2; 3; 4; 5; 6; 7; 8]) /\
  (len_CODES CODES = 16 ->
   exists p,
     create_sheet_grid CODES diameter 12 4 2 = Ok p /\
     Forall2
       (fun pl ij =>
          grid_cell CODES diameter 12 4 2 (fst ij) (snd ij) = Some pl)
       (placements p) [(0, 0); (0, 1); (1, 0); (1, 1)] /\
     map pl_code_num (placements p) = [12; 13; 14; 15] /\
     labels (svg p) = [13; 14; 15; 16] /\
     Forall
       (fun ij => grid_cell CODES diameter 12 4 2 (fst ij) (snd ij) = None)
       [(2, 0); (2, 1); (3, 0); (3, 1)]).
Proof.
  split; [|split].
  - intros code_index rows cols Hidx Hrows Hcols.
    exists (grid_page CODES diameter code_index rows cols).
    split; [now apply create_sheet_grid_ok|].
    rewrite grid_page_labels, grid_page_placements.
    repeat split.
    + now apply grid_cell_some.
    + now apply grid_cell_none.
  - intros Hlen. exists (grid_page CODES diameter 0 4 2).
    split; [apply create_sheet_grid_ok; lia|].
    rewrite grid_page_labels, grid_page_placements.
    unfold grid_cells.
    change (range 4) with [0; 1; 2; 3]. change (range 2) with [0; 1].
    cbn [flat_map].
    destruct (grid_cell_some CODES diameter 0 4 2 0 0) as (c0 & _ & E0);
      [lia|].
    destruct (grid_cell_some CODES diameter 0 4 2 0 1) as (c1 & _ & E1);
      [lia|].
    destruct (grid_cell_some CODES diameter 0 4 2 1 0) as (c2 & _ & E2);
      [lia|].
    destruct (grid_cell_some CODES diameter 0 4 2 1 1) as (c3 & _ & E3);
      [lia|].
    destruct (grid_cell_some CODES diameter 0 4 2 2 0) as (c4 & _ & E4);
      [lia|].
    destruct (grid_cell_some CODES diameter 0 4 2 2 1) as (c5 & _ & E5);
      [lia|].
    destruct (grid_cell_some CODES diameter 0 4 2 3 0) as (c6 & _ & E6);
      [lia|].
    destruct (grid_cell_some CODES diameter 0 4 2 3 1) as (c7 & _ & E7);
      [lia|].
    rewrite E0, E1, E2, E3, E4, E5, E6, E7. cbn [olist app map pl_code_num].
    repeat split.
    repeat (constructor; [cbn [fst snd]; assumption|]). constructor.
  - intros Hlen. exists (grid_page CODES diameter 12 4 2).
    split; [apply create_sheet_grid_ok; lia|].
    rewrite grid_page_labels, grid_page_placements.
    unfold grid_cells.
    change (range 4) with [0; 1; 2; 3]. change (range 2) with [0; 1].
    cbn [flat_map].
    destruct (grid_cell_some CODES diameter 12 4 2 0 0) as (c0 & _ & E0);
      [lia|].
    destruct (grid_cell_some CODES diameter 12 4 2 0 1) as (c1 & _ & E1);
      [lia|].
    destruct (grid_cell_some CODES diameter 12 4 2 1 0) as (c2 & _ & E2);
      [lia|].
    destruct (grid_cell_some CODES diameter 12 4 2 1 1) as (c3 & _ & E3);
      [lia|].
    pose proof (grid_cell_none CODES diameter 12 4 2 2 0) as E4.
    pose proof (grid_cell_none CODES diameter 12 4 2 2 1) as E5.
    pose proof (grid_cell_none CODES diameter 12 4 2 3 0) as E6.
    pose proof (grid_cell_none CODES diameter 12 4 2 3 1) as E7.
    rewrite E0, E1, E2, E3, E4, E5, E6, E7 by lia.
    cbn [olist app map pl_code_num].
    repeat split.
    + repeat (constructor; [cbn [fst snd]; assumption|]). constructor.
    + repeat constructor; cbn [fst snd]; auto with zarith.
Qed.

End GridTheorems.

Lemma create_sheet_grid_row_major_witness :
  (exists p,
      create_sheet_grid (firstn 16 sample_codes) 20 8 4 2 = Ok p /\
      labels (svg p) = map (fun pl => pl_code_num pl + 1) (placements p)) /\
  (exists p,
      create_sheet_grid (firstn 16 sample_codes) 20 0 4 2 = Ok p /\
      map pl_code_num (placements p) = [0; 1; 2; 3; 4; 5; 6; 7] /\
      labels (svg p) = [1; 2; 3; 4; 5; 6; 7; 8]) /\
  (exists p,
      create_sheet_grid (firstn 16 sample_codes) 20 12 4 2 = Ok p /\
      map pl_code_num (placements p) = [12; 13; 14; 15] /\
      labels (svg p) = [13; 14; 15; 16]).
Proof.
  destruct (create_sheet_grid_row_major (firstn 16 sample_codes) 20)
    as (Hgen & H0 & H12).
  split; [|split].
  - destruct (Hgen 8 4 2) as (p & Hp & _ & Hlabels & _); [lia | lia | lia |].
    exists p. auto.
  - destruct H0 as (p & Hp & _ & Hnums & Hlabels); [vm_compute; discriminate|].
    exists p. auto.
  - destruct H12 as (p & Hp & _ & Hnums & Hlabels & _);
      [vm_compute; reflexivity|].
    exists p. auto.
Defined.

Section GridErrors.

Variable CODES : list Z.
Variable diameter : R.

(** Code indices at or beyond the end of the list.  In [create_sheet_grid]
    such a cell is skipped and every cell whose index is in range is still
    placed.  [create_sheet_a], [create_sheet_b] and [create_sheet_c] index
    the list without the guard of the grid: they raise [IndexError] and
    produce no page ([create_sheet_a] already when [code_index + 1] is at
    the end, since it reads two codes). *)
Lemma composers_beyond_the_end :
  (forall code_index rows cols,
      0 <= code_index -> rows <> 1 -> cols <> 1 ->
      exists p,
        create_sheet_grid CODES diameter code_index rows cols = Ok p /\
        forall i j,
          0 <= i < rows -> 0 <= j < cols ->
          let num := code_index + i * cols + j in
          (num < len_CODES CODES ->
           exists pl,
             In pl (placements p) /\ pl_code_num pl = num /\
             nth_error CODES (Z.to_nat num) = Some (pl_code pl)) /\
          (len_CODES CODES <= num ->
           forall pl, In pl (placements p) -> pl_code_num pl <> num)) /\
  (forall code_index,
      0 <= code_index -> len_CODES CODES <= code_index + 1 ->
      create_sheet_a CODES diameter code_index = Raise IndexError) /\
  (forall code_index,
      len_CODES CODES <= code_index ->
      create_sheet_b CODES diameter code_index = Raise IndexError) /\
  (forall code_index,
      len_CODES CODES <= code_index ->
      create_sheet_c CODES diameter code_index = Raise IndexError).
Proof.
  split; [|auto using create_sheet_a_index_error, create_sheet_b_index_error,
             create_sheet_c_index_error].
  intros code_index rows cols Hidx Hrows Hcols.
  rewrite create_sheet_grid_ok by assumption.
  eexists; split; [reflexivity|]. rewrite grid_page_placements.
  intros i j Hi Hj. split.
  - intros Hnum.
    destruct (grid_cell_some CODES diameter code_index rows cols i j)
      as (code & Hnth & Hcell); [nia|].
    eexists. split; [|split].
    + apply in_grid_cells. exists i, j. eauto.
    + reflexivity.
    + exact Hnth.
  - intros Hnum pl Hin Heq.
    apply in_grid_cells in Hin as (i' & j' & _ & _ & Hcell).
    apply grid_cell_inv in Hcell as (Hlt & _ & Hpl).
    rewrite Hpl in Heq. cbn [pl_code_num] in Heq. lia.
Qed.


End GridErrors.

(** C4.  The code at a code index just beyond the end of a list of 20
    codes: [create_sheet_grid] skips the out-of-range cells, places the
    in-range ones and returns its page, whereas [create_sheet_a],
    [create_sheet_b] and [create_sheet_c] raise [IndexError] instead of
    leaving the slot out. *)
Theorem fixed_sheets_beyond_the_end :
  (exists p, create_sheet_grid sample_codes 20 16 4 2 = Ok p /\
             map pl_code_num (placements p) = [16; 17; 18; 19]) /\
  (exists p, create_sheet_grid sample_codes 20 20 4 2 = Ok p /\
             placements p = []) /\
  create_sheet_a sample_codes 25 20 = Raise IndexError /\
  create_sheet_a sample_codes 25 19 = Raise IndexError /\
  create_sheet_b sample_codes 25 20 = Raise IndexError /\
  create_sheet_c sample_codes 25 20 = Raise IndexError.
Proof.
  split; [|split].
  - rewrite create_sheet_grid_ok by lia.
    eexists; split; [reflexivity|]. now rewrite grid_page_placements.
  - rewrite create_sheet_grid_ok by lia.
    eexists; split; [reflexivity|]. now rewrite grid_page_placements.
  - repeat split; reflexivity.
Qed.



(** ** Layout of the fixed sheets *)

(** Centres on one axis of the grid, [usable] being the usable page length
    on that axis and [count] the number of rows or columns: when the
    footprint fits, different indices are at least [diameter] apart. *)
Lemma axis_spacing (diameter usable base : R) (count k1 k2 : Z) :
  2 <= count -> (0 < diameter)%R ->
  (diameter * (IZR count + 2) <= usable)%R ->
  k1 <> k2 ->
  (diameter
   <= Rabs ((base + IZR k1 * ((usable - diameter * 3) / IZR (count - 1)))
            - (base + IZR k2 * ((usable - diameter * 3) / IZR (count - 1)))))%R.
Proof.
  intros Hcount Hd Hfit Hne.
  set (s := ((usable - diameter * 3) / IZR (count - 1))%R).
  assert (HD : (1 <= IZR (count - 1))%R) by (apply IZR_le; lia).
  assert (Hs : (s * IZR (count - 1) = usable - diameter * 3)%R)
    by (unfold s; field; lra).
  rewrite minus_IZR in HD, Hs.
  assert (Hds : (diameter <= s)%R) by nra.
  replace (base + IZR k1 * s - (base + IZR k2 * s))%R
    with (IZR (k1 - k2) * s)%R by (rewrite minus_IZR; ring).
  assert (Hk : (IZR (k1 - k2) <= -1 \/ 1 <= IZR (k1 - k2))%R).
  { destruct (Z_lt_le_dec k1 k2).
    - left. apply IZR_le. lia.
    - right. apply IZR_le. lia. }
  unfold Rabs. destruct (Rcase_abs _); nra.
Qed.

Lemma reference_dots_default_header rest :
  reference_dots (default_header ++ rest) = reference_dots rest.
Proof. reflexivity. Qed.

Section Layouts.

Variable CODES : list Z.
Variable diameter : R.

(** C8.  From any start index with two codes available, [create_sheet_a]
    reads exactly the codes at [code_index] and [code_index + 1] and places
    exactly two coded targets, the first at a quarter and the second at
    three quarters of the page diagonal, the first called with
    [first_segment = True] and the second with [False]; besides them the
    canvas holds exactly four reference dots.  The codes themselves play no
    part in the layout. *)
Theorem create_sheet_a_layout code_index :
  0 <= code_index -> code_index + 1 < len_CODES CODES ->
  exists code0 code1 p pl0 pl1,
    nth_error CODES (Z.to_nat code_index) = Some code0 /\
    nth_error CODES (Z.to_nat (code_index + 1)) = Some code1 /\
    create_sheet_a CODES diameter code_index = Ok p /\
    placements p = [pl0; pl1] /\
    pl0 = mkPlacement (width p / 4)%R (height p / 4)%R (diameter / 2)%R
            code0 code_index true default_color /\
    pl1 = mkPlacement (width p / 4 * 3)%R (height p / 4 * 3)%R
            (diameter / 2)%R code1 (code_index + 1) false default_color /\
    (pl_x pl0 = 1 / 4 * width p /\ pl_y pl0 = 1 / 4 * height p)%R /\
    (pl_x pl1 = 3 / 4 * width p /\ pl_y pl1 = 3 / 4 * height p)%R /\
    reference_dots (svg p)
    = [ corner_dot diameter 1 0 3; corner_dot diameter 1 1 3;
        corner_dot diameter 0 2 3; corner_dot diameter 0 3 3 ] /\
    List.length (reference_dots (svg p)) = 4%nat /\
    labels (svg p) = [code_index + 1; code_index + 1 + 1].
Proof.
  intros Hidx Hlen. unfold len_CODES in Hlen.
  destruct (getitem_in_range CODES code_index) as (c0 & Hn0 & H0); [lia|].
  destruct (getitem_in_range CODES (code_index + 1)) as (c1 & Hn1 & H1);
    [lia|].
  rewrite (create_sheet_a_ok CODES diameter code_index c0 c1 H0 H1).
  cbv zeta. do 5 eexists.
  split; [exact Hn0|]. split; [exact Hn1|]. split; [reflexivity|].
  cbn [placements svg width height].
  split; [reflexivity|]. split; [reflexivity|]. split; [reflexivity|].
  cbn [pl_x pl_y].
  split; [split; lra|]. split; [split; lra|].
  rewrite reference_dots_default_header, !reference_dots_target_elems.
  rewrite !labels_app, !labels_target_elems.
  repeat split.
Qed.

(** C5 (as amended).  [create_sheet_b] places one coded target whose
    position is decided by the parity of the code index alone: for an even
    index the centre is [(width / 4 * 3, height / 4 * 3)], both coordinates
    of the other slot times 3, which lies in the right and lower half of the
    page (y grows downwards in the SVG); for an odd index the centre is
    [(width / 4, height / 4)], in the left and upper half. *)
Theorem create_sheet_b_slot code_index :
  0 <= code_index < len_CODES CODES ->
  exists code p pl,
    nth_error CODES (Z.to_nat code_index) = Some code /\
    create_sheet_b CODES diameter code_index = Ok p /\
    placements p = [pl] /\
    width p = 210%R /\ height p = 298%R /\
    pl_code pl = code /\ pl_code_num pl = code_index /\
    pl_radius pl = (diameter / 2)%R /\ pl_first_segment pl = true /\
    (code_index mod 2 = 0 ->
     pl_x pl = (width p / 4 * 3)%R /\ pl_y pl = (height p / 4 * 3)%R /\
     in_right_half p pl /\ in_lower_half p pl) /\
    (code_index mod 2 = 1 ->
     pl_x pl = (width p / 4)%R /\ pl_y pl = (height p / 4)%R /\
     in_left_half p pl /\ in_upper_half p pl).
Proof.
  intros Hidx. unfold len_CODES in Hidx.
  destruct (getitem_in_range CODES code_index) as (c & Hn & H); [lia|].
  rewrite (create_sheet_b_ok CODES diameter code_index c H).
  assert (Hpar : code_index mod 2 = 0 \/ code_index mod 2 = 1)
    by (pose proof (Z.mod_pos_bound code_index 2); lia).
  unfold in_right_half, in_left_half, in_upper_half, in_lower_half.
  destruct Hpar as [Hpar|Hpar];
    [ rewrite (sheet_b_slot_even _ _ _ Hpar)
    | rewrite (sheet_b_slot_odd _ _ _ Hpar) ];
    cbv zeta; do 3 eexists;
    (split; [exact Hn|]); (split; [reflexivity|]);
    cbn [placements width height pl_x pl_y pl_code pl_code_num pl_radius
         pl_first_segment];
    repeat (split; [reflexivity|]);
    (split; intros Hp; [|]);
    try (rewrite Hpar in Hp; discriminate);
    repeat split; cbn [pl_x pl_y]; lra.
Qed.

(** C9 (as amended).  For a grid with at least two rows and two columns, a
    positive diameter and a footprint that fits the usable page -
    [diameter * (cols + 2) <= 190] and [diameter * (rows + 2) <= 278], the
    usable width and height of the 210 x 298 page with margin 10 - two
    target centres in different columns are at least [diameter] apart
    horizontally and two in different rows at least [diameter] apart
    vertically; hence two different targets are at least [diameter] apart
    along some axis. *)
Theorem create_sheet_grid_spacing code_index rows cols :
  0 <= code_index -> 2 <= rows -> 2 <= cols ->
  (0 < diameter)%R ->
  (diameter * (IZR cols + 2) <= 190)%R ->
  (diameter * (IZR rows + 2) <= 278)%R ->
  exists p,
    create_sheet_grid CODES diameter code_index rows cols = Ok p /\
    forall pl1 pl2,
      In pl1 (placements p) -> In pl2 (placements p) ->
      (pl_x pl1 = pl_x pl2 \/ diameter <= Rabs (pl_x pl1 - pl_x pl2))%R /\
      (pl_y pl1 = pl_y pl2 \/ diameter <= Rabs (pl_y pl1 - pl_y pl2))%R /\
      (pl1 <> pl2 ->
       diameter <= Rabs (pl_x pl1 - pl_x pl2) \/
       diameter <= Rabs (pl_y pl1 - pl_y pl2))%R.
Proof.
  intros Hidx Hrows Hcols Hd Hw Hh.
  rewrite create_sheet_grid_ok by lia.
  eexists; split; [reflexivity|]. rewrite grid_page_placements.
  intros pl1 pl2 H1 H2.
  apply in_grid_cells in H1 as (i1 & j1 & Hi1 & Hj1 & Hc1).
  apply in_grid_cells in H2 as (i2 & j2 & Hi2 & Hj2 & Hc2).
  pose proof (grid_cell_inv _ _ _ _ _ _ _ _ Hc1) as (_ & Hn1 & E1).
  pose proof (grid_cell_inv _ _ _ _ _ _ _ _ Hc2) as (_ & Hn2 & E2).
  assert (Hx : j1 = j2 \/
               (diameter <= Rabs (grid_x diameter cols j1
                                  - grid_x diameter cols j2))%R).
  { destruct (Z.eq_dec j1 j2) as [|Hne]; [now left|right].
    apply axis_spacing; [lia | assumption | lra | assumption]. }
  assert (Hy : i1 = i2 \/
               (diameter <= Rabs (grid_y diameter rows i1
                                  - grid_y diameter rows i2))%R).
  { destruct (Z.eq_dec i1 i2) as [|Hne]; [now left|right].
    apply axis_spacing; [lia | assumption | lra | assumption]. }
  rewrite E1, E2. cbn [pl_x pl_y].
  split; [|split].
  - destruct Hx as [->|Hx]; auto.
  - destruct Hy as [->|Hy]; auto.
  - intros Hne.
    destruct Hx as [->|Hx]; [|now left].
    destruct Hy as [->|Hy]; [|now right].
    exfalso. apply Hne. congruence.
Qed.

End Layouts.

(** ** Instances on concrete inputs *)

Lemma placements_add_circle p x y radius color :
  placements (add_circle p x y radius color) = placements p.
Proof. reflexivity. Qed.

Lemma add_target_arc_segments_witness :
  exists segs,
    arc_segments
      (svg (add_target (SvgPage_init 210 298 "mm" 5 5 "#fff") 105 149 10
              8197 0 true default_color))
    = arc_segments (svg (SvgPage_init 210 298 "mm" 5 5 "#fff")) ++ segs /\
    List.length segs = popcount 8197 /\
    Forall2 (spans_sector 105 149 10)
      (filter (fun i => Z.testbit 8197 (14 - 1 - i)) (range 14)) segs.
Proof. apply add_target_arc_segments. lia. Defined.

Lemma add_target_round_trip_witness :
  exists sectors segs,
    arc_segments
      (svg (add_target (SvgPage_init 210 298 "mm" 5 5 "#fff") 105 149 10
              8197 0 true default_color))
    = arc_segments (svg (SvgPage_init 210 298 "mm" 5 5 "#fff")) ++ segs /\
    Forall2 (spans_sector 105 149 10) sectors segs /\
    sectors = drawn_sectors 8197 /\
    decode_sectors sectors = 8197 /\
    forall secs,
      Forall (fun i => 0 <= i < 14) secs ->
      Forall2 (spans_sector 105 149 10) secs segs ->
      decode_sectors secs = 8197.
Proof.
  destruct (add_target_round_trip (SvgPage_init 210 298 "mm" 5 5 "#fff")
              105 149 10 8197 0 true default_color)
    as (sectors & segs & H1 & H2 & H3 & H4 & H5); [lia|].
  exists sectors, segs. repeat (split; [assumption|]). apply H5. lra.
Defined.

Lemma add_target_code_zero_witness :
  anchors
    (svg (add_circle
            (add_target (SvgPage_init 210 298 "mm" 5 5 "#fff") 105 149 10
               0 0 true default_color)
            20 20 10 default_color))
  = [] /\
  exists p, create_sheet_c [5; 0; 7] 25 1 = Ok p /\ anchors (svg p) = [].
Proof.
  destruct add_target_code_zero as (_ & Hreach & Hsheet). split.
  - apply Hreach.
    + apply reachable_circle, reachable_target, reachable_init.
    + intros pl Hin _.
      rewrite placements_add_circle, placements_add_target in Hin.
      destruct Hin as [<-|[]]. reflexivity.
  - pose proof (create_sheet_c_ok [5; 0; 7] 25 1 0 eq_refl) as Hc.
    cbv zeta in Hc. eexists. split; [exact Hc|].
    apply (Hsheet [5; 0; 7] 25%R 1 0 0).
    + right; right; right. exact Hc.
    + cbn [placements]. intros pl [<-|[]] _. reflexivity.
Defined.

Lemma create_sheet_a_layout_witness :
  exists p pl0 pl1,
    create_sheet_a sample_codes 25 16 = Ok p /\
    placements p = [pl0; pl1] /\
    pl_code pl0 = 33 /\ pl_code pl1 = 35 /\
    pl_first_segment pl0 = true /\ pl_first_segment pl1 = false /\
    List.length (reference_dots (svg p)) = 4%nat /\
    labels (svg p) = [17; 18].
Proof.
  destruct (create_sheet_a_layout sample_codes 25 16)
    as (c0 & c1 & p & pl0 & pl1 & H0 & H1 & Hp & Hpl & E0 & E1 & _ & _ & _
        & Hdots & Hlabels);
    [lia | vm_compute; reflexivity |].
  injection H0 as <-. injection H1 as <-.
  exists p, pl0, pl1. subst pl0 pl1.
  repeat split; solve [assumption | reflexivity].
Defined.

Lemma create_sheet_b_slot_witness :
  (exists p pl,
      create_sheet_b sample_codes 25 18 = Ok p /\ placements p = [pl] /\
      pl_x pl = (210 / 4 * 3)%R /\ pl_y pl = (298 / 4 * 3)%R) /\
  (exists p pl,
      create_sheet_b sample_codes 25 19 = Ok p /\ placements p = [pl] /\
      pl_x pl = (210 / 4)%R /\ pl_y pl = (298 / 4)%R).
Proof.
  split.
  - destruct (create_sheet_b_slot sample_codes 25 18)
      as (c & p & pl & _ & Hp & Hpl & Hw & Hh & _ & _ & _ & _ & Heven & _);
      [vm_compute; split; [discriminate | reflexivity] |].
    destruct Heven as (Hx & Hy & _); [reflexivity|].
    exists p, pl. rewrite Hw in Hx. rewrite Hh in Hy. auto.
  - destruct (create_sheet_b_slot sample_codes 25 19)
      as (c & p & pl & _ & Hp & Hpl & Hw & Hh & _ & _ & _ & _ & _ & Hodd);
      [vm_compute; split; [discriminate | reflexivity] |].
    destruct Hodd as (Hx & Hy & _); [reflexivity|].
    exists p, pl. rewrite Hw in Hx. rewrite Hh in Hy. auto.
Defined.

(** The statement of C5 fails on the code: for the even index 18 the coded
    target is centred at y = 223.5 on a page of height 298, which is the
    lower half of the page, not the upper one. *)
Lemma create_sheet_b_upper_right_counterexample :
  exists p pl,
    create_sheet_b sample_codes 25 18 = Ok p /\
    placements p = [pl] /\
    pl_x pl = (157 + 1 / 2)%R /\ pl_y pl = (223 + 1 / 2)%R /\
    in_right_half p pl /\ ~ in_upper_half p pl.
Proof.
  rewrite (create_sheet_b_ok sample_codes 25 18 37) by reflexivity.
  rewrite sheet_b_slot_even by reflexivity. cbv zeta.
  do 2 eexists. split; [reflexivity|]. split; [reflexivity|].
  unfold in_right_half, in_upper_half. cbn [pl_x pl_y width height].
  repeat split; lra.
Qed.

Lemma create_sheet_grid_spacing_witness :
  exists p,
    create_sheet_grid sample_codes 20 0 4 2 = Ok p /\
    forall pl1 pl2,
      In pl1 (placements p) -> In pl2 (placements p) ->
      (pl_x pl1 = pl_x pl2 \/ 20 <= Rabs (pl_x pl1 - pl_x pl2))%R /\
      (pl_y pl1 = pl_y pl2 \/ 20 <= Rabs (pl_y pl1 - pl_y pl2))%R /\
      (pl1 <> pl2 ->
       20 <= Rabs (pl_x pl1 - pl_x pl2) \/
       20 <= Rabs (pl_y pl1 - pl_y pl2))%R.
Proof.
  apply (create_sheet_grid_spacing sample_codes 20 0 4 2); try lia; lra.
Defined.

(** The statement of C9 fails on the code: with diameter 60 in a 2 x 2 grid
    the two targets of the first row are centred 10 apart, on the same
    height. *)
Lemma create_sheet_grid_spacing_counterexample :
  exists p pl1 pl2,
    create_sheet_grid sample_codes 60 0 2 2 = Ok p /\
    In pl1 (placements p) /\ In pl2 (placements p) /\
    pl_code_num pl1 = 0 /\ pl_code_num pl2 = 1 /\
    (Rabs (pl_x pl1 - pl_x pl2) = 10)%R /\
    (Rabs (pl_y pl1 - pl_y pl2) = 0)%R /\
    (Rabs (pl_x pl1 - pl_x pl2) < 60)%R /\
    (Rabs (pl_y pl1 - pl_y pl2) < 60)%R.
Proof.
  rewrite create_sheet_grid_ok by lia.
  destruct (grid_cell_some sample_codes 60 0 2 2 0 0) as (c0 & _ & E0);
    [vm_compute; split; [discriminate | reflexivity] |].
  destruct (grid_cell_some sample_codes 60 0 2 2 0 1) as (c1 & _ & E1);
    [vm_compute; split; [discriminate | reflexivity] |].
  do 3 eexists. split; [reflexivity|]. rewrite grid_page_placements.
  split; [apply in_grid_cells; exists 0, 0; split; [lia|]; split; [lia|];
          exact E0|].
  split; [apply in_grid_cells; exists 0, 1; split; [lia|]; split; [lia|];
          exact E1|].
  cbn [pl_code_num pl_x pl_y]. unfold grid_x, grid_y.
  change (2 - 1) with 1.
  replace (10 + 60 * 3 / 2 + 0 * ((210 - 10 * 2 - 60 * 3) / 1)
           - (10 + 60 * 3 / 2 + 1 * ((210 - 10 * 2 - 60 * 3) / 1)))%R
    with (Ropp 10) by lra.
  replace (10 + 60 * 3 / 2 + 0 * ((298 - 10 * 2 - 60 * 3) / 1)
           - (10 + 60 * 3 / 2 + 0 * ((298 - 10 * 2 - 60 * 3) / 1)))%R
    with 0%R by lra.
  rewrite Rabs_R0, Rabs_Ropp, Rabs_pos_eq by lra.
  repeat split; lra.
Qed.

(** * Further properties of the canvas operations *)

(** X1.  [add_target] looks at the low 14 bits of the code only: any
    integer code, negative ones included, gives the same text as its
    residue modulo [2^14], with one path per set bit of that residue and so
    never more than 14 paths. *)
Theorem add_target_low_bits p x y radius c code_num first_segment color :
  svg (add_target p x y radius c code_num first_segment color)
  = svg (add_target p x y radius (c mod 2 ^ 14) code_num first_segment color)
  /\
  exists segs,
    arc_segments (svg (add_target p x y radius c code_num first_segment color))
    = arc_segments (svg p) ++ segs /\
    List.length segs = popcount (c mod 2 ^ 14) /\
    (List.length segs <= 14)%nat.
Proof.
  rewrite !svg_add_target. split.
  - unfold target_elems.
    cbn [pl_x pl_y pl_radius pl_code pl_code_num pl_first_segment pl_color].
    now rewrite <- drawn_sectors_mod.
  - exists (segments x y radius first_segment (drawn_sectors c)).
    rewrite arc_segments_app, arc_segments_target_elems.
    cbn [pl_x pl_y pl_radius pl_code pl_first_segment].
    split; [reflexivity|]. rewrite segments_length. split.
    + rewrite drawn_sectors_mod. apply drawn_sectors_popcount.
      apply Z.mod_pos_bound. lia.
    + unfold drawn_sectors.
      etransitivity; [apply filter_length_le|]. reflexivity.
Qed.

Lemma arc_segment_on_ring x y radius i first_segment :
  let e := arc_segment x y radius i first_segment in
  let rho := (5 / 2 * radius)%R in
  dist2 (arc_start e) (x, y) = (rho * rho)%R /\
  dist2 (arc_end e) (x, y) = (rho * rho)%R /\
  dist2 (arc_start e) (arc_end e)
  = (2 * (rho * rho) * (1 - cos (2 * PI / 14)))%R.
Proof.
  unfold arc_segment, arc_start, arc_end, dist2. cbn [fst snd].
  set (a := deg2rad (sector_deg i)).
  set (b := deg2rad (sector_deg (i + 1))).
  assert (Hab : (b - a = 2 * PI / 14)%R).
  { unfold a, b, deg2rad, sector_deg, BITS. rewrite plus_IZR. field. }
  rewrite <- Hab, cos_minus.
  pose proof (sin2_cos2 a) as Ha. pose proof (sin2_cos2 b) as Hb.
  unfold Rsqr in Ha, Hb.
  repeat split; nra.
Qed.

(** X2.  Every arc that [add_target] draws starts and ends on the circle of
    radius [2.5 * radius] around the centre of the target, and all arcs have
    the same chord: the squared distance between start and end is
    [2 * (2.5 * radius)^2 * (1 - cos (2 * PI / 14))]. *)
Theorem add_target_arcs_on_ring p x y radius c code_num first_segment color :
  exists segs,
    arc_segments (svg (add_target p x y radius c code_num first_segment color))
    = arc_segments (svg p) ++ segs /\
    Forall
      (fun e =>
         let rho := (5 / 2 * radius)%R in
         dist2 (arc_start e) (x, y) = (rho * rho)%R /\
         dist2 (arc_end e) (x, y) = (rho * rho)%R /\
         dist2 (arc_start e) (arc_end e)
         = (2 * (rho * rho) * (1 - cos (2 * PI / 14)))%R)
      segs.
Proof.
  exists (segments x y radius first_segment (drawn_sectors c)).
  rewrite svg_add_target, arc_segments_app, arc_segments_target_elems.
  cbn [pl_x pl_y pl_radius pl_code pl_first_segment].
  split; [reflexivity|].
  generalize first_segment.
  induction (drawn_sectors c) as [|i l IH]; intros f; cbn [segments];
    constructor; [apply arc_segment_on_ring | apply IH].
Qed.

(** X3.  The fourteen sectors tile the ring: the arc of sector [i] ends
    exactly where the arc of the next sector starts, and the arc of the last
    sector ends where the arc of sector 0 starts. *)
Theorem arc_segments_tile_the_ring x y radius i first_segment first_segment' :
  0 <= i < 14 ->
  arc_end (arc_segment x y radius i first_segment)
  = arc_start (arc_segment x y radius ((i + 1) mod 14) first_segment').
Proof.
  intros Hi. unfold arc_segment, arc_end, arc_start.
  destruct (Z.eq_dec i 13) as [->|Hne].
  - change ((13 + 1) mod 14) with 0.
    replace (deg2rad (sector_deg (13 + 1))) with (2 * PI)%R
      by (unfold deg2rad, sector_deg, BITS; change (13 + 1) with 14; field).
    replace (deg2rad (sector_deg 0)) with 0%R
      by (unfold deg2rad, sector_deg, BITS; field).
    rewrite cos_2PI, sin_2PI, cos_0, sin_0. f_equal; ring.
  - rewrite Z.mod_small by lia. f_equal; ring.
Qed.

Lemma arc_segments_tile_the_ring_witness :
  arc_end (arc_segment 105 149 10 13 false)
  = arc_start (arc_segment 105 149 10 ((13 + 1) mod 14) true).
Proof. apply arc_segments_tile_the_ring. lia. Defined.

(** * Invariants of every canvas *)

Lemma prun_app a : forall s b,
  prun s (a ++ b)
  = match prun s a with
    | Some s' => prun s' b
    | None => None
    end.
Proof.
  induction a as [|e a IH]; intros s b; cbn [app prun]; [reflexivity|].
  destruct (pstep s e); [apply IH | reflexivity].
Qed.

Lemma prun_segments x y radius sectors : forall first_segment rest,
  prun InGroup (segments x y radius first_segment sectors ++ rest)
  = prun InGroup rest.
Proof.
  induction sectors as [|i l IH]; intros f rest; [reflexivity|].
  cbn [segments app prun]. unfold arc_segment. cbn [pstep]. apply IH.
Qed.

Lemma prun_target_elems s pl :
  s = Top \/ s = AfterCircle -> prun s (target_elems pl) = Some Top.
Proof.
  intros Hs. unfold target_elems. cbn [app prun].
  destruct Hs as [->| ->]; cbn [pstep prun]; now rewrite prun_segments.
Qed.

Lemma reachable_fields p :
  reachable p ->
  exists body,
    svg p
    = SvgOpen (width p) (height p) (unit_ p)
      :: Rect (background_margin p) (background_margin p)
           (width p - background_margin p * 2)%R
           (height p - background_margin p * 2)%R (background_color p)
      :: body /\
    (prun Top body = Some Top \/ prun Top body = Some AfterCircle).
Proof.
  induction 1 as [| p x y radius color _ IH | p x y r c n f col _ IH].
  - exists []. split; [reflexivity | now left].
  - destruct IH as (body & Hsvg & Hrun).
    exists (body ++ [Circle color x y radius]).
    unfold add_circle, append_svg.
    cbn [svg width height unit_ background_margin background_color].
    rewrite Hsvg. split; [reflexivity|]. rewrite prun_app.
    destruct Hrun as [-> | ->]; now right.
  - destruct IH as (body & Hsvg & Hrun).
    exists (body ++ target_elems (mkPlacement x y r c n f col)).
    rewrite add_target_eq. unfold record_placement, append_svg.
    cbn [svg width height unit_ background_margin background_color].
    rewrite Hsvg. split; [reflexivity|]. rewrite prun_app.
    left. destruct Hrun as [-> | ->]; apply prun_target_elems; auto.
Qed.

Lemma reachable_well_formed p : reachable p -> well_formed_page p.
Proof.
  intros Hp. destruct (reachable_fields p Hp) as (body & Hsvg & Hrun).
  exists body. split; [assumption|]. unfold well_formed_body.
  destruct Hrun as [-> | ->]; reflexivity.
Qed.

(** X4.  Every canvas built by [SvgPage], [add_circle] and [add_target] -
    hence every page a composer returns - is a well-formed document: the
    header and the background rectangle computed from the page's own
    measures come first and are never altered, and after them come only
    lone circles and complete target blocks (circle, group opening, paths,
    group closing, text); no group is left open and no path stands outside
    a group. *)
Theorem canvas_well_formed :
  (forall p, reachable p -> well_formed_page p) /\
  (forall CODES diameter code_index rows cols p,
      create_sheet_grid CODES diameter code_index rows cols = Ok p \/
      create_sheet_a CODES diameter code_index = Ok p \/
      create_sheet_b CODES diameter code_index = Ok p \/
      create_sheet_c CODES diameter code_index = Ok p ->
      well_formed_page p).
Proof.
  split; [exact reachable_well_formed|].
  intros CODES diameter code_index rows cols p Hp.
  apply reachable_well_formed.
  destruct Hp as [Hp|[Hp|[Hp|Hp]]];
    eauto using create_sheet_grid_reachable, create_sheet_a_reachable,
      create_sheet_b_reachable, create_sheet_c_reachable.
Qed.

Lemma canvas_well_formed_witness :
  exists p,
    create_sheet_b sample_codes 25 18 = Ok p /\ well_formed_page p.
Proof.
  pose proof (create_sheet_b_ok sample_codes 25 18 37 eq_refl) as Hb.
  rewrite sheet_b_slot_even in Hb by reflexivity. cbv zeta in Hb.
  eexists. split; [exact Hb|].
  apply (proj2 canvas_well_formed sample_codes 25%R 18 0 0).
  right; right; left. exact Hb.
Defined.

(** X5.  On every canvas the printed numbers are, in order, the code
    indices of the targets placed so far, each plus one; reference dots
    print nothing. *)
Theorem canvas_labels p :
  reachable p ->
  labels (svg p) = map (fun pl => pl_code_num pl + 1) (placements p).
Proof. apply reachable_labels. Qed.

Lemma canvas_labels_witness :
  labels
    (svg (add_circle
            (add_target
               (add_target (SvgPage_init 210 298 "mm" 5 5 "#fff")
                  50 50 10 5 41 true default_color)
               150 50 10 9 42 false default_color)
            20 20 10 default_color))
  = [42; 43].
Proof.
  rewrite canvas_labels
    by (apply reachable_circle, reachable_target, reachable_target,
          reachable_init).
  now rewrite placements_add_circle, !placements_add_target.
Defined.

Lemma reachable_arc_segments p :
  reachable p ->
  arc_segments (svg p)
  = flat_map (fun pl => arc_segments (target_elems pl)) (placements p).
Proof.
  induction 1 as [| p x y radius color _ IH | p x y r c n f col _ IH].
  - reflexivity.
  - unfold add_circle, append_svg; cbn [svg placements].
    now rewrite arc_segments_app, IH, app_nil_r.
  - rewrite svg_add_target, placements_add_target.
    rewrite arc_segments_app, flat_map_app, IH.
    cbn [flat_map]. now rewrite app_nil_r.
Qed.

(** X6.  On every canvas the number of path fragments is the sum, over the
    targets placed, of the number of one bits among the low 14 bits of their
    codes; circles, labels and reference dots add none. *)
Theorem canvas_arc_count p :
  reachable p ->
  List.length (arc_segments (svg p))
  = list_sum (map (fun pl => popcount (pl_code pl mod 2 ^ 14)) (placements p)).
Proof.
  intros Hp. rewrite reachable_arc_segments by assumption.
  induction (placements p) as [|pl pls IH]; [reflexivity|].
  cbn [flat_map map]. rewrite length_app, IH.
  change (list_sum (?a :: ?l)) with (a + list_sum l)%nat. f_equal.
  rewrite arc_segments_target_elems, segments_length, drawn_sectors_mod.
  apply drawn_sectors_popcount, Z.mod_pos_bound. lia.
Qed.

Lemma canvas_arc_count_witness :
  exists p,
    create_sheet_a sample_codes 25 16 = Ok p /\
    List.length (arc_segments (svg p)) = 5%nat.
Proof.
  pose proof (create_sheet_a_ok sample_codes 25 16 33 35 eq_refl eq_refl)
    as Ha.
  cbv zeta in Ha. eexists. split; [exact Ha|].
  rewrite canvas_arc_count
    by (eapply create_sheet_a_reachable; exact Ha).
  reflexivity.
Defined.

(** X7.  On every canvas the anchors are exactly the first segments of the
    targets that were placed with [first_segment = True] and draw at least
    one segment, in placing order; so there are never more anchors than
    such placements, and a target placed with [first_segment = False] never
    carries one. *)
Theorem canvas_anchors p :
  reachable p ->
  anchors (svg p) = flat_map placement_anchor (placements p) /\
  (List.length (anchors (svg p))
   <= List.length (filter pl_first_segment (placements p)))%nat.
Proof.
  intros Hp. rewrite reachable_anchors by assumption.
  split; [reflexivity|].
  induction (placements p) as [|pl pls IH]; [reflexivity|].
  cbn [flat_map filter]. rewrite length_app.
  pose proof (placement_anchor_length pl) as Hlen.
  unfold placement_anchor in *.
  destruct (pl_first_segment pl); cbn [List.length] in *; lia.
Qed.

Lemma canvas_anchors_witness :
  exists p,
    create_sheet_a sample_codes 25 16 = Ok p /\
    List.length (anchors (svg p)) = 1%nat.
Proof.
  pose proof (create_sheet_a_ok sample_codes 25 16 33 35 eq_refl eq_refl)
    as Ha.
  cbv zeta in Ha. eexists. split; [exact Ha|].
  rewrite (proj1 (canvas_anchors _ (create_sheet_a_reachable _ _ _ _ Ha))).
  reflexivity.
Defined.

(** * The grid as a slice of the code list *)

Lemma flat_map_nil {A B : Type} (f : A -> list B) (l : list A) :
  (forall x, In x l -> f x = []) -> flat_map f l = [].
Proof.
  induction l as [|x l IH]; intros H; [reflexivity|].
  cbn [flat_map]. rewrite H by now left.
  apply IH. intros; apply H; now right.
Qed.

Lemma flat_map_over_map {A B C : Type} (f : B -> list C) (g : A -> B)
  (l : list A) :
  flat_map f (map g l) = flat_map (fun x => f (g x)) l.
Proof. induction l; cbn [map flat_map]; [reflexivity | now f_equal]. Qed.

Lemma flat_map_flat_map {A B C : Type} (f : B -> list C) (g : A -> list B)
  (l : list A) :
  flat_map f (flat_map g l) = flat_map (fun x => flat_map f (g x)) l.
Proof.
  induction l; cbn [flat_map]; [reflexivity|].
  now rewrite flat_map_app, IHl.
Qed.

Lemma combine_map_l {A B C : Type} (g : A -> B) (l : list A) (l' : list C) :
  combine (map g l) l' = map (fun p => (g (fst p), snd p)) (combine l l').
Proof.
  revert l'. induction l as [|a l IH]; intros [|c l']; cbn; auto.
  now rewrite IH.
Qed.

(** Looking up the positions [0 .. c-1] of a list and keeping what is
    there yields its first [c] elements, each paired with its position. *)
Lemma present_prefix {A B : Type} (m : list A) :
  forall (h : nat -> A -> B) (c : nat),
    flat_map (fun n => olist (option_map (h n) (nth_error m n))) (seq 0 c)
    = map (fun nx => h (fst nx) (snd nx)) (combine (seq 0 c) (firstn c m)).
Proof.
  induction m as [|x m IH]; intros h c.
  - rewrite firstn_nil, combine_nil. apply flat_map_nil.
    intros n _. now destruct n.
  - destruct c as [|c]; [reflexivity|].
    cbn [seq flat_map nth_error option_map olist app firstn combine map
         fst snd].
    f_equal. rewrite <- seq_shift, flat_map_over_map, combine_map_l, map_map.
    cbn [nth_error fst snd]. apply (IH (fun n => h (S n))).
Qed.

Lemma range_of_nat (n : nat) : range (Z.of_nat n) = map Z.of_nat (seq 0 n).
Proof. unfold range. now rewrite Nat2Z.id. Qed.

Lemma range_to_nat (n : Z) : range n = map Z.of_nat (seq 0 (Z.to_nat n)).
Proof. reflexivity. Qed.

Lemma range_succ (n : nat) :
  range (Z.of_nat (S n)) = range (Z.of_nat n) ++ [Z.of_nat n].
Proof. rewrite !range_of_nat, seq_S, map_app. reflexivity. Qed.

Lemma range_add (a b : nat) :
  range (Z.of_nat (a + b))
  = range (Z.of_nat a) ++ map (fun j => Z.of_nat a + j) (range (Z.of_nat b)).
Proof.
  rewrite !range_of_nat, seq_app, map_app. f_equal.
  cbn [Nat.add]. rewrite map_map.
  induction b as [|b IH]; [reflexivity|].
  rewrite !seq_S, !map_app, IH. cbn [map]. f_equal. f_equal. lia.
Qed.

(** Row-major enumeration: visiting the cells row by row visits cell
    [(n / cols, n mod cols)] at step [n]. *)
Lemma row_major_cells (rows : nat) (cols : Z) :
  0 < cols ->
  flat_map (fun i => map (fun j => (i, j)) (range cols))
    (range (Z.of_nat rows))
  = map (fun n => (n / cols, n mod cols))
      (range (Z.of_nat rows * cols)).
Proof.
  intros Hcols.
  assert (Hc : cols = Z.of_nat (Z.to_nat cols)) by lia.
  induction rows as [|rows IH]; [reflexivity|].
  rewrite range_succ, flat_map_app, IH. cbn [flat_map]. rewrite app_nil_r.
  replace (Z.of_nat (S rows) * cols)
    with (Z.of_nat (Z.to_nat (Z.of_nat rows * cols) + Z.to_nat cols)) by nia.
  rewrite range_add, map_app, map_map.
  replace (Z.of_nat (Z.to_nat (Z.of_nat rows * cols)))
    with (Z.of_nat rows * cols) by nia.
  rewrite <- Hc. f_equal.
  apply map_ext_in. intros j Hj. apply in_range in Hj. f_equal.
  - apply Z.div_unique with j; lia.
  - apply Z.mod_unique with (Z.of_nat rows); lia.
Qed.

Lemma combine_seq_fst {A : Type} (l : list A) : forall s c,
  (List.length l <= c)%nat ->
  map fst (combine (seq s c) l) = seq s (List.length l).
Proof.
  induction l as [|a l IH]; intros s c Hc.
  - now rewrite combine_nil.
  - destruct c as [|c]; [cbn in Hc; lia|].
    cbn [seq combine map fst List.length]. f_equal.
    apply IH. cbn in Hc. lia.
Qed.

Lemma combine_seq_snd {A : Type} (l : list A) : forall s c,
  (List.length l <= c)%nat -> map snd (combine (seq s c) l) = l.
Proof.
  induction l as [|a l IH]; intros s c Hc.
  - now rewrite combine_nil.
  - destruct c as [|c]; [cbn in Hc; lia|].
    cbn [seq combine map snd]. f_equal. apply IH. cbn in Hc. lia.
Qed.

Section GridSlice.

Variable CODES : list Z.
Variables (diameter : R) (code_index rows cols : Z).
Hypothesis Hidx : 0 <= code_index.
Hypothesis Hcols : 0 < cols.

Lemma grid_cell_by_step (t : nat) :
  grid_cell CODES diameter code_index rows cols
    (Z.of_nat t / cols) (Z.of_nat t mod cols)
  = option_map (grid_target diameter code_index rows cols t)
      (nth_error (skipn (Z.to_nat code_index) CODES) t).
Proof.
  unfold grid_cell, grid_target.
  replace (code_index + Z.of_nat t / cols * cols + Z.of_nat t mod cols)
    with (code_index + Z.of_nat t)
    by (pose proof (Z.div_mod (Z.of_nat t) cols); lia).
  rewrite nth_error_skipn.
  replace (Z.to_nat code_index + t)%nat
    with (Z.to_nat (code_index + Z.of_nat t)) by lia.
  destruct (Z.ltb_spec (code_index + Z.of_nat t) (len_CODES CODES)) as [H|H].
  - now destruct (nth_error CODES _).
  - replace (nth_error CODES (Z.to_nat (code_index + Z.of_nat t)))
      with (@None Z); [reflexivity|].
    symmetry. apply nth_error_None. unfold len_CODES in H. lia.
Qed.

Lemma grid_cells_slice :
  grid_cells CODES diameter code_index rows cols
  = map (fun tc => grid_target diameter code_index rows cols (fst tc) (snd tc))
      (combine (seq 0 (Z.to_nat (rows * cols)))
         (firstn (Z.to_nat (rows * cols))
            (skipn (Z.to_nat code_index) CODES))).
Proof.
  unfold grid_cells.
  transitivity
    (flat_map
       (fun ij =>
          olist (grid_cell CODES diameter code_index rows cols
                   (fst ij) (snd ij)))
       (flat_map (fun i => map (fun j => (i, j)) (range cols)) (range rows))).
  { rewrite flat_map_flat_map. apply flat_map_ext. intros i.
    now rewrite flat_map_over_map. }
  rewrite (range_to_nat rows), <- range_of_nat, row_major_cells by assumption.
  rewrite range_to_nat, map_map, flat_map_over_map.
  replace (Z.to_nat (Z.of_nat (Z.to_nat rows) * cols))
    with (Z.to_nat (rows * cols)) by nia.
  cbn [fst snd]. rewrite <- present_prefix.
  apply flat_map_ext. intros t. now rewrite grid_cell_by_step.
Qed.

End GridSlice.

Lemma grid_page_slice CODES diameter code_index rows cols :
  0 <= code_index -> 0 < cols ->
  let cap := Z.to_nat (rows * cols) in
  let slice := firstn cap (skipn (Z.to_nat code_index) CODES) in
  let p := grid_page CODES diameter code_index rows cols in
  placements p
  = map (fun tc =>
           grid_target diameter code_index rows cols (fst tc) (snd tc))
      (combine (seq 0 cap) slice) /\
  map pl_code (placements p) = slice /\
  map pl_code_num (placements p)
  = map (fun t => code_index + Z.of_nat t) (seq 0 (List.length slice)) /\
  labels (svg p)
  = map (fun t => code_index + Z.of_nat t + 1) (seq 0 (List.length slice)) /\
  List.length (placements p)
  = Z.to_nat (Z.min (rows * cols) (len_CODES CODES - code_index)).
Proof.
  intros Hidx Hcols cap slice p. subst p.
  rewrite grid_page_labels, grid_page_placements.
  rewrite grid_cells_slice by lia. fold cap. fold slice.
  assert (Hlen : (List.length slice <= cap)%nat)
    by (unfold slice; rewrite length_firstn; lia).
  assert (Hnum :
            map pl_code_num
              (map (fun tc =>
                      grid_target diameter code_index rows cols
                        (fst tc) (snd tc)) (combine (seq 0 cap) slice))
            = map (fun t => code_index + Z.of_nat t)
                (seq 0 (List.length slice))).
  { rewrite map_map. cbn [grid_target pl_code_num].
    rewrite <- (combine_seq_fst slice 0 cap Hlen).
    now rewrite map_map. }
  split; [reflexivity|]. split; [|split; [exact Hnum|split]].
  - rewrite map_map. cbn [grid_target pl_code].
    apply (combine_seq_snd slice 0 cap Hlen).
  - rewrite <- (map_map pl_code_num (fun n => n + 1)), Hnum, map_map.
    reflexivity.
  - rewrite length_map, length_combine, length_seq.
    unfold slice. rewrite length_firstn, length_skipn.
    unfold cap, len_CODES. lia.
Qed.

(** X8.  A grid page is the slice [CODES[code_index : code_index + rows *
    cols]] laid out row by row: target number [t] of the page (from 0)
    shows the [t]-th code of the slice, is printed [code_index + t + 1] and
    sits in column [t mod cols] of row [t / cols].  The slice stops at the
    end of the list, so the page holds [min (rows * cols) (len - code_index)]
    targets and none when the start lies beyond the end. *)
Theorem create_sheet_grid_slice CODES diameter code_index rows cols :
  0 <= code_index -> rows <> 1 -> 2 <= cols ->
  let cap := Z.to_nat (rows * cols) in
  let slice := firstn cap (skipn (Z.to_nat code_index) CODES) in
  exists p,
    create_sheet_grid CODES diameter code_index rows cols = Ok p /\
    placements p
    = map (fun tc =>
             grid_target diameter code_index rows cols (fst tc) (snd tc))
        (combine (seq 0 cap) slice) /\
    map pl_code (placements p) = slice /\
    map pl_code_num (placements p)
    = map (fun t => code_index + Z.of_nat t) (seq 0 (List.length slice)) /\
    labels (svg p)
    = map (fun t => code_index + Z.of_nat t + 1) (seq 0 (List.length slice)) /\
    List.length (placements p)
    = Z.to_nat (Z.min (rows * cols) (len_CODES CODES - code_index)).
Proof.
  intros Hidx Hrows Hcols cap slice.
  exists (grid_page CODES diameter code_index rows cols).
  split; [apply create_sheet_grid_ok; lia|].
  apply grid_page_slice; lia.
Qed.

Lemma create_sheet_grid_slice_witness :
  exists p,
    create_sheet_grid sample_codes 20 16 4 2 = Ok p /\
    map pl_code (placements p) = [33; 35; 37; 39] /\
    labels (svg p) = [17; 18; 19; 20].
Proof.
  destruct (create_sheet_grid_slice sample_codes 20 16 4 2)
    as (p & Hp & _ & Hcodes & _ & Hlabels & _); [lia | lia | lia |].
  exists p. repeat split; assumption.
Defined.

(** * More about the grid *)

Lemma axis_inside (usable diameter : R) (count k : Z) :
  2 <= count -> 0 <= k < count ->
  (diameter * 3 <= usable)%R ->
  (0 <= IZR k * ((usable - diameter * 3) / IZR (count - 1))
   <= usable - diameter * 3)%R.
Proof.
  intros Hcount Hk Hfit.
  set (s := ((usable - diameter * 3) / IZR (count - 1))%R).
  assert (HD : (1 <= IZR (count - 1))%R) by (apply IZR_le; lia).
  assert (Hs : (s * IZR (count - 1) = usable - diameter * 3)%R)
    by (unfold s; field; lra).
  assert (Hk0 : (0 <= IZR k)%R) by (apply IZR_le; lia).
  assert (Hk1 : (IZR k <= IZR (count - 1))%R) by (apply IZR_le; lia).
  assert (Hs0 : (0 <= s)%R) by nra.
  split; nra.
Qed.

(** X9.  When the footprint of a target ([3 * diameter], the outer edge of
    its ring) is not wider than the usable width of the grid page, every
    target of a grid with at least two rows and two columns lies with its
    whole footprint inside the margins: between 10 and 200 horizontally and
    between 10 and 288 vertically. *)
Theorem create_sheet_grid_inside_margins CODES diameter code_index rows cols :
  0 <= code_index -> 2 <= rows -> 2 <= cols ->
  (0 <= diameter)%R -> (diameter * 3 <= 190)%R ->
  exists p,
    create_sheet_grid CODES diameter code_index rows cols = Ok p /\
    Forall
      (fun pl =>
         (10 <= pl_x pl - 3 * pl_radius pl)%R /\
         (pl_x pl + 3 * pl_radius pl <= 210 - 10)%R /\
         (10 <= pl_y pl - 3 * pl_radius pl)%R /\
         (pl_y pl + 3 * pl_radius pl <= 298 - 10)%R)
      (placements p).
Proof.
  intros Hidx Hrows Hcols Hd Hfit.
  rewrite create_sheet_grid_ok by lia.
  eexists; split; [reflexivity|]. rewrite grid_page_placements.
  apply Forall_forall. intros pl Hin.
  apply in_grid_cells in Hin as (i & j & Hi & Hj & Hcell).
  apply grid_cell_inv in Hcell as (_ & _ & Hpl). rewrite Hpl.
  cbn [pl_x pl_y pl_radius]. unfold grid_x, grid_y.
  pose proof (axis_inside (210 - 10 * 2) diameter cols j Hcols Hj) as Hx.
  pose proof (axis_inside (298 - 10 * 2) diameter rows i Hrows Hi) as Hy.
  repeat split; lra.
Qed.

Lemma create_sheet_grid_inside_margins_witness :
  exists p,
    create_sheet_grid sample_codes 20 0 4 2 = Ok p /\
    Forall
      (fun pl =>
         (10 <= pl_x pl - 3 * pl_radius pl)%R /\
         (pl_x pl + 3 * pl_radius pl <= 210 - 10)%R /\
         (10 <= pl_y pl - 3 * pl_radius pl)%R /\
         (pl_y pl + 3 * pl_radius pl <= 298 - 10)%R)
      (placements p).
Proof.
  apply create_sheet_grid_inside_margins; try lia; lra.
Defined.

Lemma grid_cells_first_segment CODES diameter code_index rows cols :
  Forall (fun pl => pl_first_segment pl = true)
    (grid_cells CODES diameter code_index rows cols).
Proof.
  apply Forall_forall. intros pl Hin.
  apply in_grid_cells in Hin as (i & j & _ & _ & Hcell).
  apply grid_cell_inv in Hcell as (_ & _ & Hpl). now rewrite Hpl.
Qed.

(** X10.  [create_sheet_grid] places every target with
    [first_segment = True]; so on a grid page each target whose code has a
    one among its low 14 bits carries an anchor of its own, and the number
    of anchors on the page is the number of such targets. *)
Theorem create_sheet_grid_anchors CODES diameter code_index rows cols :
  0 <= code_index -> rows <> 1 -> cols <> 1 ->
  exists p,
    create_sheet_grid CODES diameter code_index rows cols = Ok p /\
    Forall (fun pl => pl_first_segment pl = true) (placements p) /\
    List.length (anchors (svg p))
    = List.length
        (filter (fun pl => negb (pl_code pl mod 2 ^ 14 =? 0)) (placements p)).
Proof.
  intros Hidx Hrows Hcols.
  rewrite create_sheet_grid_ok by assumption.
  eexists; split; [reflexivity|].
  assert (Hr : reachable (grid_page CODES diameter code_index rows cols))
    by (eapply create_sheet_grid_reachable;
        now apply create_sheet_grid_ok).
  rewrite (reachable_anchors _ Hr), grid_page_placements.
  pose proof (grid_cells_first_segment CODES diameter code_index rows cols)
    as Hfirst.
  split; [assumption|].
  induction Hfirst as [|pl pls Hpl _ IH]; [reflexivity|].
  cbn [flat_map filter]. rewrite length_app, IH.
  destruct (placement_anchor_true pl Hpl) as [H1 H0].
  destruct (Z.eqb_spec (pl_code pl mod 2 ^ 14) 0) as [E|E]; cbn [negb].
  - now rewrite (H0 E).
  - now rewrite (H1 E).
Qed.

Lemma create_sheet_grid_anchors_witness :
  exists p,
    create_sheet_grid sample_codes 20 8 4 2 = Ok p /\
    List.length (anchors (svg p)) = 8%nat.
Proof.
  destruct (create_sheet_grid_anchors sample_codes 20 8 4 2)
    as (p & Hp & _ & Hlen); [lia | lia | lia |].
  exists p. split; [exact Hp|]. rewrite Hlen.
  rewrite create_sheet_grid_ok in Hp by lia. injection Hp as <-.
  now rewrite grid_page_placements.
Defined.

(** * More about the fixed sheets *)

(** X11.  The fixed sheets take a negative code index the way Python lists
    do: [create_sheet_c] with an index in [[-len, 0)] draws the code counted
    from the end of the list and prints the index plus one, a number that is
    zero or negative; an index below [-len] raises [IndexError]. *)
Theorem create_sheet_c_negative_index CODES diameter code_index :
  code_index < 0 ->
  (- len_CODES CODES <= code_index ->
   exists code p,
     nth_error CODES (Z.to_nat (len_CODES CODES + code_index)) = Some code /\
     create_sheet_c CODES diameter code_index = Ok p /\
     map pl_code (placements p) = [code] /\
     labels (svg p) = [code_index + 1] /\
     code_index + 1 <= 0) /\
  (code_index < - len_CODES CODES ->
   create_sheet_c CODES diameter code_index = Raise IndexError).
Proof.
  intros Hneg. unfold len_CODES. split; intros Hlen.
  - destruct (getitem_from_the_end CODES code_index) as (code & Hn & Hg);
      [lia|].
    exists code. rewrite (create_sheet_c_ok CODES diameter code_index code Hg).
    cbv zeta. eexists. split; [exact Hn|]. split; [reflexivity|].
    cbn [placements svg map pl_code].
    rewrite !labels_app, labels_target_elems.
    repeat split. lia.
  - unfold create_sheet_c. now rewrite getitem_before_the_start.
Qed.

Lemma create_sheet_c_negative_index_witness :
  (exists p,
      create_sheet_c sample_codes 25 (-1) = Ok p /\
      map pl_code (placements p) = [39] /\ labels (svg p) = [0]) /\
  create_sheet_c sample_codes 25 (-21) = Raise IndexError.
Proof.
  destruct (create_sheet_c_negative_index sample_codes 25 (-1)) as [H _];
    [lia|].
  destruct (create_sheet_c_negative_index sample_codes 25 (-21)) as [_ H'];
    [lia|].
  split.
  - destruct H as (code & p & Hn & Hp & Hc & Hl & _);
      [vm_compute; discriminate|].
    injection Hn as <-. exists p. auto.
  - apply H'. vm_compute. reflexivity.
Defined.

(** X12.  [create_sheet_c] puts its one coded target on the centre of the
    page, (105, 149), and four reference dots of the target's radius at the
    corners of the rectangle inset by [a = 5 + 3 * diameter / 2] from the
    page edges; a half-turn of the page about its centre maps the dots onto
    each other and leaves the target in place. *)
Theorem create_sheet_c_layout CODES diameter code_index :
  0 <= code_index < len_CODES CODES ->
  exists code p,
    nth_error CODES (Z.to_nat code_index) = Some code /\
    create_sheet_c CODES diameter code_index = Ok p /\
    placements p
    = [mkPlacement 105 149 (diameter / 2)%R code code_index true
         default_color] /\
    (let a := (5 + 3 * diameter / 2)%R in
     map circle_centre (reference_dots (svg p))
     = [ (a, a); ((210 - a)%R, a); (a, (298 - a)%R);
         ((210 - a)%R, (298 - a)%R) ]) /\
    Forall (fun e => exists c x y, e = Circle c x y (diameter / 2)%R)
      (reference_dots (svg p)) /\
    map half_turn (map circle_centre (reference_dots (svg p)))
    = rev (map circle_centre (reference_dots (svg p))) /\
    map half_turn (map placement_centre (placements p))
    = map placement_centre (placements p).
Proof.
  intros Hidx. unfold len_CODES in Hidx.
  destruct (getitem_in_range CODES code_index) as (code & Hn & Hg); [lia|].
  exists code. rewrite (create_sheet_c_ok CODES diameter code_index code Hg).
  cbv zeta. eexists. split; [exact Hn|]. split; [reflexivity|].
  cbn [placements svg].
  rewrite reference_dots_default_header, reference_dots_target_elems.
  unfold corner_dot, half_turn, placement_centre.
  cbn [reference_dots map circle_centre rev app fst snd pl_x pl_y].
  cbv zeta.
  split; [f_equal; f_equal; lra|].
  split;
    [repeat (match goal with
             | |- (_ :: _) = (_ :: _) => apply f_equal2
             | |- (_, _) = (_, _) => apply f_equal2
             end); try reflexivity; lra|].
  split; [repeat constructor; eauto|].
  split;
    repeat (match goal with
            | |- (_ :: _) = (_ :: _) => apply f_equal2
            | |- (_, _) = (_, _) => apply f_equal2
            end); try reflexivity; lra.
Qed.

Lemma create_sheet_c_layout_witness :
  exists p,
    create_sheet_c sample_codes 25 19 = Ok p /\
    placements p = [mkPlacement 105 149 (25 / 2)%R 39 19 true default_color].
Proof.
  destruct (create_sheet_c_layout sample_codes 25 19)
    as (code & p & Hn & Hp & Hpl & _); [vm_compute; split; congruence|].
  injection Hn as <-. exists p. auto.
Defined.

Lemma perm_pairs_swapped {A : Type} (a b c d e f : A) :
  Permutation [b; a; f; e; d; c] [a; b; c; d; e; f].
Proof.
  apply (Permutation_app (l := [b; a]) (l' := [a; b])
           (m := [f; e; d; c]) (m' := [c; d; e; f])).
  - apply perm_swap.
  - apply Permutation_sym, (Permutation_rev [c; d; e; f]).
Qed.



(** X14.  [create_sheet_b] draws one coded target and six reference dots,
    and its two layouts are half-turns of each other: turning the page of
    an even code index by 180 degrees about its centre puts the target and
    the six dots on the positions they have on the page of an odd code
    index. *)
Theorem create_sheet_b_half_turn CODES diameter even odd :
  0 <= even < len_CODES CODES -> 0 <= odd < len_CODES CODES ->
  even mod 2 = 0 -> odd mod 2 = 1 ->
  exists pe po,
    create_sheet_b CODES diameter even = Ok pe /\
    create_sheet_b CODES diameter odd = Ok po /\
    List.length (placements pe) = 1%nat /\
    List.length (placements po) = 1%nat /\
    List.length (reference_dots (svg pe)) = 6%nat /\
    List.length (reference_dots (svg po)) = 6%nat /\
    Permutation
      (map half_turn (map circle_centre (reference_dots (svg pe))))
      (map circle_centre (reference_dots (svg po))) /\
    map half_turn (map placement_centre (placements pe))
    = map placement_centre (placements po).
Proof.
  intros He Ho Heven Hodd. unfold len_CODES in He, Ho.
  destruct (getitem_in_range CODES even) as (ce & _ & Hge); [lia|].
  destruct (getitem_in_range CODES odd) as (co & _ & Hgo); [lia|].
  rewrite (create_sheet_b_ok CODES diameter even ce Hge).
  rewrite (create_sheet_b_ok CODES diameter odd co Hgo).
  rewrite (sheet_b_slot_even _ _ _ Heven), (sheet_b_slot_odd _ _ _ Hodd).
  cbv zeta. do 2 eexists. split; [reflexivity|]. split; [reflexivity|].
  cbn [placements svg].
  rewrite !reference_dots_default_header, !reference_dots_target_elems.
  unfold corner_dot, half_turn, placement_centre.
  change (0 + 1) with 1. change (2 + 1) with 3.
  cbn [reference_dots map circle_centre rev app fst snd pl_x pl_y
       List.length].
  repeat (split; [reflexivity|]).
  split.
  - match goal with
    | |- Permutation _ [?a; ?b; ?c; ?d; ?e; ?f] =>
        transitivity [b; a; f; e; d; c];
          [apply Permutation_refl' | apply perm_pairs_swapped]
    end.
    repeat (match goal with
            | |- (_ :: _) = (_ :: _) => apply f_equal2
            | |- (_, _) = (_, _) => apply f_equal2
            end); try reflexivity; lra.
  - repeat (match goal with
            | |- (_ :: _) = (_ :: _) => apply f_equal2
            | |- (_, _) = (_, _) => apply f_equal2
            end); try reflexivity; lra.
Qed.

Lemma create_sheet_b_half_turn_witness :
  exists pe po,
    create_sheet_b sample_codes 25 18 = Ok pe /\
    create_sheet_b sample_codes 25 19 = Ok po /\
    map half_turn (map placement_centre (placements pe))
    = map placement_centre (placements po).
Proof.
  destruct (create_sheet_b_half_turn sample_codes 25 18 19)
    as (pe & po & He & Ho & _ & _ & _ & _ & _ & Ht);
    [vm_compute; split; congruence | vm_compute; split; congruence
    | reflexivity | reflexivity |].
  exists pe, po. auto.
Defined.

(** * The driver *)

Lemma grid_page_reachable CODES diameter code_index rows cols :
  reachable (grid_page CODES diameter code_index rows cols).
Proof.
  unfold grid_page, place_all.
  generalize (SvgPage_init default_width default_height default_unit 10
                default_background_margin default_background_color)
             (reachable_init default_width default_height default_unit 10
                default_background_margin default_background_color).
  induction (grid_cells CODES diameter code_index rows cols) as [|pl l IH];
    intros p Hp; cbn [fold_left]; [assumption|].
  apply IH. now apply reachable_target.
Qed.

Section DriverFacts.

Variable path_join : string -> string -> string.
Variable CODES : list Z.

Lemma main_with_directory argv dir w :
  nth_error argv 1 = Some dir ->
  main path_join CODES argv w
  = and_then
      (for_each_action [0; 8]
         (fun n =>
            save_sheet path_join (create_sheet_grid CODES 20 n 4 2)
              (path_join dir (String.append (py_str n) "_grid.pdf")) dir))
      (fun _ =>
         and_then
           (save_sheet path_join (create_sheet_a CODES 25 16)
              (path_join dir "16_a.pdf") dir)
           (fun _ =>
              and_then
                (save_sheet path_join (create_sheet_b CODES 25 18)
                   (path_join dir "18_b.pdf") dir)
                (fun _ =>
                   save_sheet path_join (create_sheet_c CODES 25 19)
                     (path_join dir "19_c.pdf") dir)))
      w.
Proof.
  intros Hdir. unfold main.
  assert (Hlen : (1 < List.length argv)%nat)
    by (apply nth_error_Some; congruence).
  destruct (getitem_in_range argv 1) as (a & Ha & ->); [lia|].
  change (Z.to_nat 1) with 1%nat in Ha. rewrite Hdir in Ha.
  injection Ha as <-. reflexivity.
Qed.

Lemma main_grid_pages dir w :
  for_each_action [0; 8]
    (fun n =>
       save_sheet path_join (create_sheet_grid CODES 20 n 4 2)
         (path_join dir (String.append (py_str n) "_grid.pdf")) dir) w
  = ((w ++ savePDF path_join (grid_page CODES 20 0 4 2)
             (path_join dir "0_grid.pdf") dir
        ++ savePDF path_join (grid_page CODES 20 8 4 2)
             (path_join dir "8_grid.pdf") dir)%list,
     Ok tt).
Proof.
  cbn [for_each_action]. unfold and_then, save_sheet.
  rewrite !create_sheet_grid_ok by lia.
  now rewrite <- app_assoc.
Qed.

End DriverFacts.

Lemma first_twenty (l : list Z) :
  (20 <= List.length l)%nat ->
  exists c0 c1 c2 c3 c4 c5 c6 c7 c8 c9 c10 c11 c12 c13 c14 c15 c16 c17 c18
         c19 tl,
    l = [c0; c1; c2; c3; c4; c5; c6; c7; c8; c9; c10; c11; c12; c13; c14;
         c15; c16; c17; c18; c19] ++ tl.
Proof.
  intros H.
  do 20 (destruct l as [|? l]; [cbn in H; lia|]).
  repeat eexists.
Qed.

(** X15.  Given an output directory and at least 20 codes, [main] runs to
    the end and exports five pages in this order: the grids of codes 0-7
    and 8-15, sheet a with codes 16 and 17, sheet b with code 18 and sheet
    c with code 19.  Together the pages show the first 20 codes, each once
    and in order, printed 1 to 20.  Every page is written to the same
    scratch file [sheet.svg] in the output directory, closed by the end
    tag, and is followed by the union command and the export command for
    its own file name. *)
Theorem main_exports_twenty_codes path_join CODES argv dir w :
  nth_error argv 1 = Some dir ->
  20 <= len_CODES CODES ->
  exists pages,
    fst (main path_join CODES argv w)
    = w ++ flat_map
             (fun pf =>
                [ WriteFile (path_join dir "sheet.svg"%string)
                    (map Elem (svg (fst pf)) ++ [SvgEnd]);
                  Run (union_command (path_join dir "sheet.svg"%string));
                  Run (export_command (path_join dir (snd pf))
                         (path_join dir "sheet.svg"%string)) ])
             (combine pages
                ["0_grid.pdf"; "8_grid.pdf"; "16_a.pdf"; "18_b.pdf";
                 "19_c.pdf"]%string) /\
    snd (main path_join CODES argv w) = Ok tt /\
    List.length pages = 5%nat /\
    Forall well_formed_page pages /\
    map (fun p => List.length (placements p)) pages
    = [8; 8; 2; 1; 1]%nat /\
    flat_map (fun p => map pl_code (placements p)) pages = firstn 20 CODES /\
    flat_map (fun p => labels (svg p)) pages
    = [1; 2; 3; 4; 5; 6; 7; 8; 9; 10; 11; 12; 13; 14; 15; 16; 17; 18; 19; 20].
Proof.
  intros Hdir Hlen. unfold len_CODES in Hlen.
  destruct (getitem_in_range CODES 16) as (c16 & Hn16 & H16); [lia|].
  destruct (getitem_in_range CODES 17) as (c17 & Hn17 & H17); [lia|].
  destruct (getitem_in_range CODES 18) as (c18 & Hn18 & H18); [lia|].
  destruct (getitem_in_range CODES 19) as (c19 & Hn19 & H19); [lia|].
  pose proof (create_sheet_a_ok CODES 25 16 c16 c17 H16 H17) as Ha.
  pose proof (create_sheet_b_ok CODES 25 18 c18 H18) as Hb.
  pose proof (create_sheet_c_ok CODES 25 19 c19 H19) as Hc.
  rewrite sheet_b_slot_even in Hb by reflexivity.
  cbv zeta in Ha, Hb, Hc.
  match type of Ha with _ = Ok ?p => set (pa := p) in * end.
  match type of Hb with _ = Ok ?p => set (pb := p) in * end.
  match type of Hc with _ = Ok ?p => set (pc := p) in * end.
  assert (Hmain :
            main path_join CODES argv w
            = ((w ++ savePDF path_join (grid_page CODES 20 0 4 2)
                       (path_join dir "0_grid.pdf"%string) dir
                  ++ savePDF path_join (grid_page CODES 20 8 4 2)
                       (path_join dir "8_grid.pdf"%string) dir
                  ++ savePDF path_join pa (path_join dir "16_a.pdf"%string)
                       dir
                  ++ savePDF path_join pb (path_join dir "18_b.pdf"%string)
                       dir
                  ++ savePDF path_join pc (path_join dir "19_c.pdf"%string)
                       dir)%list,
               Ok tt)).
  { rewrite (main_with_directory _ _ _ _ _ Hdir).
    unfold and_then at 1. rewrite main_grid_pages.
    unfold and_then, save_sheet. rewrite Ha, Hb, Hc.
    now rewrite <- !app_assoc. }
  rewrite Hmain. cbn [fst snd].
  exists [grid_page CODES 20 0 4 2; grid_page CODES 20 8 4 2; pa; pb; pc].
  split; [|split; [reflexivity|split; [reflexivity|split]]].
  - reflexivity.
  - repeat constructor;
      apply reachable_well_formed;
      eauto using grid_page_reachable, create_sheet_a_reachable,
        create_sheet_b_reachable, create_sheet_c_reachable.
  - destruct (grid_page_slice CODES 20 0 4 2) as (_ & Hc0 & _ & Hl0 & Hk0);
      [lia | lia |].
    destruct (grid_page_slice CODES 20 8 4 2) as (_ & Hc8 & _ & Hl8 & Hk8);
      [lia | lia |].
    cbv zeta in Hc0, Hc8, Hl0, Hl8, Hk0, Hk8.
    cbn [map flat_map]. rewrite Hk0, Hk8, Hc0, Hc8, Hl0, Hl8.
    rewrite (reachable_labels pa (create_sheet_a_reachable _ _ _ _ Ha)).
    rewrite (reachable_labels pb (create_sheet_b_reachable _ _ _ _ Hb)).
    rewrite (reachable_labels pc (create_sheet_c_reachable _ _ _ _ Hc)).
    destruct (first_twenty CODES) as
      (d0 & d1 & d2 & d3 & d4 & d5 & d6 & d7 & d8 & d9 & d10 & d11 & d12
       & d13 & d14 & d15 & d16 & d17 & d18 & d19 & tl & E); [lia|].
    rewrite E in Hn16, Hn17, Hn18, Hn19.
    cbn in Hn16, Hn17, Hn18, Hn19.
    injection Hn16 as <-. injection Hn17 as <-.
    injection Hn18 as <-. injection Hn19 as <-.
    unfold len_CODES. rewrite E.
    split; [|split].
    + rewrite length_app. cbn [List.length].
      do 2 (apply f_equal2; [lia|]). reflexivity.
    + reflexivity.
    + reflexivity.
Qed.

Lemma main_exports_twenty_codes_witness :
  exists pages,
    snd (main (fun a b => String.append a (String.append "/" b))
           sample_codes ["prog"; "out"]%string [])
    = Ok tt /\
    flat_map (fun p => map pl_code (placements p)) pages = sample_codes /\
    map fst
      (written
         (fst (main (fun a b => String.append a (String.append "/" b))
                 sample_codes ["prog"; "out"]%string [])))
    = repeat "out/sheet.svg"%string 5.
Proof.
  destruct (main_exports_twenty_codes
              (fun a b => String.append a (String.append "/" b))
              sample_codes ["prog"; "out"]%string "out"%string [])
    as (pages & Hlog & Hres & Hlen & _ & _ & Hcodes & _);
    [reflexivity | vm_compute; discriminate |].
  exists pages. split; [exact Hres|]. split; [exact Hcodes|].
  rewrite Hlog.
  do 5 (destruct pages as [|? pages]; [discriminate Hlen|]).
  destruct pages; [reflexivity | discriminate Hlen].
Defined.

Lemma written_savePDF path_join p filename path :
  List.length (written (savePDF path_join p filename path)) = 1%nat.
Proof. reflexivity. Qed.

Lemma written_app a b : written (a ++ b) = written a ++ written b.
Proof.
  induction a as [|e a IH]; [reflexivity|].
  destruct e; cbn [app written]; now rewrite IH.
Qed.

(** X16.  [main] cannot finish without an output directory or with fewer
    than 20 codes, and it fails late: without a second command-line
    argument it raises [IndexError] before anything is written; with fewer
    than 20 codes it raises [IndexError] only after the two grid pages -
    and sheet a when there are 18 codes, sheets a and b when there are 19 -
    have been written and exported.  As in [savePDF], the file write and
    the start of the exporter are taken to raise nothing. *)
Theorem main_failures path_join CODES argv w :
  ((List.length argv <= 1)%nat ->
   main path_join CODES argv w = (w, Raise IndexError)) /\
  (forall dir,
      nth_error argv 1 = Some dir ->
      len_CODES CODES < 20 ->
      exists w',
        main path_join CODES argv w = ((w ++ w')%list, Raise IndexError) /\
        List.length (written w')
        = ((2 + (if (18 <=? len_CODES CODES)%Z then 1 else 0))
           + (if (19 <=? len_CODES CODES)%Z then 1 else 0))%nat).
Proof.
  split.
  - intros Hargv. unfold main. now rewrite getitem_beyond by lia.
  - intros dir Hdir Hlen.
    rewrite (main_with_directory _ _ _ _ _ Hdir).
    unfold and_then at 1. rewrite main_grid_pages.
    unfold len_CODES in *.
    destruct (Z.leb_spec 18 (Z.of_nat (List.length CODES))) as [H18|H18].
    + destruct (getitem_in_range CODES 16) as (c16 & _ & Hg16); [lia|].
      destruct (getitem_in_range CODES 17) as (c17 & _ & Hg17); [lia|].
      pose proof (create_sheet_a_ok CODES 25 16 c16 c17 Hg16 Hg17) as Ha.
      cbv zeta in Ha.
      match type of Ha with _ = Ok ?p => set (pa := p) in * end.
      destruct (Z.leb_spec 19 (Z.of_nat (List.length CODES))) as [H19|H19].
      * destruct (getitem_in_range CODES 18) as (c18 & _ & Hg18); [lia|].
        pose proof (create_sheet_b_ok CODES 25 18 c18 Hg18) as Hb.
        rewrite sheet_b_slot_even in Hb by reflexivity. cbv zeta in Hb.
        match type of Hb with _ = Ok ?p => set (pb := p) in * end.
        unfold and_then, save_sheet. rewrite Ha, Hb.
        rewrite create_sheet_c_index_error by (unfold len_CODES; lia).
        rewrite <- ?app_assoc. eexists. split; [reflexivity|].
        now rewrite !written_app, !length_app, !written_savePDF.
      * unfold and_then, save_sheet. rewrite Ha.
        rewrite create_sheet_b_index_error by (unfold len_CODES; lia).
        rewrite <- ?app_assoc. eexists. split; [reflexivity|].
        now rewrite !written_app, !length_app, !written_savePDF.
    + destruct (Z.leb_spec 19 (Z.of_nat (List.length CODES))) as [H19|H19];
        [lia|].
      unfold and_then, save_sheet.
      rewrite create_sheet_a_index_error by (unfold len_CODES; lia).
      rewrite <- ?app_assoc. eexists. split; [reflexivity|].
      now rewrite !written_app, !length_app, !written_savePDF.
Qed.

Lemma main_failures_witness :
  main (fun a b => String.append a (String.append "/" b)) sample_codes
    ["prog"]%string []
  = ([], Raise IndexError) /\
  exists w',
    main (fun a b => String.append a (String.append "/" b))
      (firstn 18 sample_codes) ["prog"; "out"]%string []
    = (w', Raise IndexError) /\
    List.length (written w') = 3%nat.
Proof.
  destruct (main_failures (fun a b => String.append a (String.append "/" b))
              sample_codes ["prog"]%string []) as [Hargv _].
  destruct (main_failures (fun a b => String.append a (String.append "/" b))
              (firstn 18 sample_codes) ["prog"; "out"]%string [])
    as [_ Hcodes].
  split.
  - apply Hargv. cbn. lia.
  - destruct (Hcodes "out"%string) as (w' & Hmain & Hlen);
      [reflexivity | vm_compute; reflexivity |].
    exists w'. split; [exact Hmain | exact Hlen].
Defined.

(** * Paging through the code list *)

Lemma firstn_plus {A : Type} (a b : nat) : forall l : list A,
  firstn (a + b) l = firstn a l ++ firstn b (skipn a l).
Proof.
  induction a as [|a IH]; intros l; [reflexivity|].
  destruct l as [|x l]; cbn [Nat.add firstn skipn app].
  - now rewrite firstn_nil.
  - now rewrite IH.
Qed.

Lemma seq_offset (a n : nat) : seq a n = map (fun t => (a + t)%nat) (seq 0 n).
Proof.
  induction a as [|a IH]; [now rewrite map_id|].
  rewrite <- seq_shift, IH, map_map. reflexivity.
Qed.

(** X17.  Grid pages tile the code list: the page that starts at
    [code_index] and the page that starts [rows * cols] later show, one
    after the other, exactly the slice
    [CODES[code_index : code_index + 2 * rows * cols]], without a gap and
    without a repeat. *)
Theorem create_sheet_grid_paging CODES diameter code_index rows cols :
  0 <= code_index -> 2 <= rows -> 2 <= cols ->
  exists p1 p2,
    create_sheet_grid CODES diameter code_index rows cols = Ok p1 /\
    create_sheet_grid CODES diameter (code_index + rows * cols) rows cols
    = Ok p2 /\
    map pl_code (placements p1) ++ map pl_code (placements p2)
    = firstn (Z.to_nat (2 * (rows * cols)))
        (skipn (Z.to_nat code_index) CODES) /\
    labels (svg p1) ++ labels (svg p2)
    = map (fun t => code_index + Z.of_nat t + 1)
        (seq 0 (List.length (placements p1) + List.length (placements p2))).
Proof.
  intros Hidx Hrows Hcols.
  exists (grid_page CODES diameter code_index rows cols),
    (grid_page CODES diameter (code_index + rows * cols) rows cols).
  split; [apply create_sheet_grid_ok; lia|].
  split; [apply create_sheet_grid_ok; nia|].
  destruct (grid_page_slice CODES diameter code_index rows cols)
    as (_ & Hc1 & Hn1 & Hl1 & Hk1); [lia | lia |].
  destruct (grid_page_slice CODES diameter (code_index + rows * cols)
              rows cols) as (_ & Hc2 & Hn2 & Hl2 & Hk2); [nia | lia |].
  cbv zeta in *.
  assert (Hlen1 : List.length (placements
                                 (grid_page CODES diameter code_index
                                    rows cols))
                  = List.length
                      (firstn (Z.to_nat (rows * cols))
                         (skipn (Z.to_nat code_index) CODES)))
    by (now rewrite <- Hc1, length_map).
  assert (Hlen2 : List.length (placements
                                 (grid_page CODES diameter
                                    (code_index + rows * cols) rows cols))
                  = List.length
                      (firstn (Z.to_nat (rows * cols))
                         (skipn (Z.to_nat (code_index + rows * cols)) CODES)))
    by (now rewrite <- Hc2, length_map).
  split.
  - rewrite Hc1, Hc2.
    replace (Z.to_nat (2 * (rows * cols)))
      with (Z.to_nat (rows * cols) + Z.to_nat (rows * cols))%nat by lia.
    rewrite firstn_plus, skipn_skipn. do 3 f_equal. nia.
  - rewrite Hl1, Hl2, <- Hlen1, <- Hlen2, seq_app, map_app. f_equal.
    cbn [Nat.add]. rewrite Hk1, Hk2.
    destruct (Z_le_gt_dec (rows * cols) (len_CODES CODES - code_index))
      as [Hfull|Hshort].
    + rewrite (seq_offset (Z.to_nat _)), map_map.
      apply map_ext. intros t. nia.
    + replace (Z.to_nat
                 (Z.min (rows * cols)
                    (len_CODES CODES - (code_index + rows * cols))))
        with 0%nat by nia.
      reflexivity.
Qed.

Lemma create_sheet_grid_paging_witness :
  exists p1 p2,
    create_sheet_grid sample_codes 20 0 4 2 = Ok p1 /\
    create_sheet_grid sample_codes 20 (0 + 4 * 2) 4 2 = Ok p2 /\
    map pl_code (placements p1) ++ map pl_code (placements p2)
    = firstn 16 sample_codes.
Proof.
  destruct (create_sheet_grid_paging sample_codes 20 0 4 2)
    as (p1 & p2 & H1 & H2 & Hc & _); [lia | lia | lia |].
  exists p1, p2. auto.
Defined.

(** * The fixed sheets stay inside the margins *)

(** X18.  On the pages of [create_sheet_a], [create_sheet_b] and
    [create_sheet_c] every coded target and every reference dot keeps the
    footprint of a target, a square of side [3 * diameter], inside the page
    margins, provided that footprint is at most 95 wide (as it is for the
    diameter 25 the driver uses).  This holds at every code index the sheet
    can read: up to the last but one for [create_sheet_a], which reads two
    codes, and up to the last for [create_sheet_b] and [create_sheet_c]. *)
Theorem fixed_sheets_inside_margins CODES diameter code_index :
  0 <= code_index ->
  (0 <= diameter)%R -> (3 * diameter <= 95)%R ->
  (code_index + 1 < len_CODES CODES ->
   exists p, create_sheet_a CODES diameter code_index = Ok p /\
             page_inside_margins diameter p) /\
  (code_index < len_CODES CODES ->
   exists p, create_sheet_b CODES diameter code_index = Ok p /\
             page_inside_margins diameter p) /\
  (code_index < len_CODES CODES ->
   exists p, create_sheet_c CODES diameter code_index = Ok p /\
             page_inside_margins diameter p).
Proof.
  intros Hidx Hd Hfit. unfold len_CODES.
  split; [|split]; intros Hlen.
  - destruct (getitem_in_range CODES code_index) as (c0 & _ & H0); [lia|].
    destruct (getitem_in_range CODES (code_index + 1)) as (c1 & _ & H1);
      [lia|].
    rewrite (create_sheet_a_ok CODES diameter code_index c0 c1 H0 H1).
    cbv zeta. eexists. split; [reflexivity|].
    unfold page_inside_margins. cbn [placements svg].
    rewrite reference_dots_default_header, !reference_dots_target_elems.
    unfold corner_dot, placement_centre.
    cbn [reference_dots map circle_centre pl_x pl_y].
    split;
      repeat (apply Forall_cons;
              [unfold inside_margins; cbn [fst snd]; repeat split; lra|]);
      apply Forall_nil.
  - destruct (getitem_in_range CODES code_index) as (c0 & _ & H0); [lia|].
    rewrite (create_sheet_b_ok CODES diameter code_index c0 H0).
    assert (Hpar : code_index mod 2 = 0 \/ code_index mod 2 = 1)
      by (pose proof (Z.mod_pos_bound code_index 2); lia).
    destruct Hpar as [Hpar|Hpar];
      [ rewrite (sheet_b_slot_even _ _ _ Hpar)
      | rewrite (sheet_b_slot_odd _ _ _ Hpar) ];
      cbv zeta; (eexists; split; [reflexivity|]);
      unfold page_inside_margins; cbn [placements svg];
      rewrite reference_dots_default_header, reference_dots_target_elems;
      unfold corner_dot, placement_centre;
      change (0 + 1) with 1; change (2 + 1) with 3;
      cbn [reference_dots map circle_centre pl_x pl_y];
      split;
      repeat (apply Forall_cons;
              [unfold inside_margins; cbn [fst snd]; repeat split; lra|]);
      apply Forall_nil.
  - destruct (getitem_in_range CODES code_index) as (c0 & _ & H0); [lia|].
    rewrite (create_sheet_c_ok CODES diameter code_index c0 H0).
    cbv zeta. eexists. split; [reflexivity|].
    unfold page_inside_margins. cbn [placements svg].
    rewrite reference_dots_default_header, reference_dots_target_elems.
    unfold corner_dot, placement_centre.
    cbn [reference_dots map circle_centre pl_x pl_y].
    split;
      repeat (apply Forall_cons;
              [unfold inside_margins; cbn [fst snd]; repeat split; lra|]);
      apply Forall_nil.
Qed.

Lemma fixed_sheets_inside_margins_witness :
  (exists p,
      create_sheet_a sample_codes 25 16 = Ok p /\ page_inside_margins 25 p) /\
  (exists p,
      create_sheet_b sample_codes 25 18 = Ok p /\ page_inside_margins 25 p) /\
  (exists p,
      create_sheet_c sample_codes 25 19 = Ok p /\ page_inside_margins 25 p).
Proof.
  split; [|split].
  - destruct (fixed_sheets_inside_margins sample_codes 25 16)
      as (Ha & _ & _); [lia | lra | lra |].
    apply Ha. vm_compute. reflexivity.
  - destruct (fixed_sheets_inside_margins sample_codes 25 18)
      as (_ & Hb & _); [lia | lra | lra |].
    apply Hb. vm_compute. reflexivity.
  - destruct (fixed_sheets_inside_margins sample_codes 25 19)
      as (_ & _ & Hc); [lia | lra | lra |].
    apply Hc. vm_compute. reflexivity.
Defined.
